(** * The ormar query-set engine

    A shallow embedding of [ormar/queryset/queryset.py]: the [QuerySet]
    descriptor, its fluent builder methods and its terminal operations,
    together with the properties of the builder and of the execution
    operations that the design document of the query-set engine states.

    Python objects that are shared by reference (the lists and dicts a
    [QuerySet] holds) live in an explicit store, so that aliasing between a
    descriptor and the descriptors derived from it is visible.  Coroutines
    are run to completion: every [await] of a database call is one entry of
    the round-trip log of the world. *)

From Stdlib Require Import ZArith Lia Ascii OrderedTypeEx.
From stdpp Require Import base strings list gmap.

Local Open Scope string_scope.
Local Open Scope list_scope.

(** ** Values, keyword arguments and rows *)

(** Scalars that travel between Python and the database. *)
Inductive value :=
  | VNone
  | VInt (n : Z)
  | VStr (s : string).

#[global] Instance value_eq_dec : EqDecision value.
Proof. solve_decision. Defined.

(** A Python [dict] with string keys, in insertion order (keyword arguments,
    [Model.dict()], a database row).  Keys are unique in a well-formed dict;
    lookup takes the first binding. *)
Abbreviation kwargs := (list (string * value)).
Abbreviation Row := (list (string * value)).

Fixpoint dict_get {A} (k : string) (d : list (string * A)) : option A :=
  match d with
  | [] => None
  | (k', v) :: d' => if decide (k = k') then Some v else dict_get k d'
  end.

(** [k in d] *)
Definition dict_has {A} (k : string) (d : list (string * A)) : bool :=
  bool_decide (is_Some (dict_get k d)).

(** [d[k] = v]: replaces the binding in place, or appends a new one. *)
Fixpoint dict_set {A} (k : string) (v : A) (d : list (string * A)) : list (string * A) :=
  match d with
  | [] => [(k, v)]
  | (k', v') :: d' => if decide (k = k') then (k, v) :: d' else (k', v') :: dict_set k v d'
  end.

(** [d.pop(k)], for a key that is there. *)
Definition dict_pop {A} (k : string) (d : list (string * A)) : list (string * A) :=
  List.filter (fun kv => negb (bool_decide (kv.1 = k))) d.

(** ** Clauses, masks, compiled expressions *)

(** The boolean fragment the clause compiler produces for one keyword of
    [filter]/[exclude]: the qualified field name (relation path, field and
    optional operator suffix, still joined by double underscores) and the
    literal it is compared with. *)
Record clause := Clause { clause_key : string; clause_value : value }.

#[global] Instance clause_eq_dec : EqDecision clause.
Proof. solve_decision. Defined.

(** A field mask: a leaf (Python's [...]) or a nested mapping from a name to
    a mask.  [_columns] and [_exclude_columns] are dicts of masks. *)
#[local] Unset Elimination Schemes.
Inductive mask :=
  | Ellipsis
  | Nested (d : list (string * mask)).
#[local] Set Elimination Schemes.

Abbreviation Dict := (list (string * mask)).

(** A WHERE condition over clauses. *)
#[local] Unset Elimination Schemes.
Inductive bexp :=
  | BClause (c : clause)
  | BAnd (bs : list bexp)
  | BNot (b : bexp).
#[local] Set Elimination Schemes.

(** The select expression handed to the database. [sel_where] lists the
    conditions appended with [.where(...)], all of which must hold. *)
Record select := Select {
  sel_table : string;
  sel_joins : list string;
  sel_fields : Dict;
  sel_exclude_fields : Dict;
  sel_where : list bexp;
  sel_order_by : list string;
  sel_limit : option Z;
  sel_offset : option Z;
  sel_limit_raw : bool }.

(** Statements that change the database.  An [Insert] carries the primary-key
    column of its table, which the database fills when the values leave it
    out.  [UpdateMany] is the textual statement of [bulk_update], whose
    values are bind parameters named [new_<column>]. *)
Inductive statement :=
  | Update (table : string) (values : kwargs) (cond : list bexp)
  | Delete (table : string) (cond : list bexp)
  | Insert (table : string) (pk_column : string) (values : kwargs)
  | UpdateMany (table : string) (pk_column : string) (columns : list string).

(** ** Model instances and model classes *)

(** An instance of a model: its field values ([dict()]) and its save
    status. *)
Record Instance := mkInstance { inst_dict : kwargs; inst_saved : bool }.

Definition set_save_status (status : bool) (i : Instance) : Instance :=
  {| inst_dict := inst_dict i; inst_saved := status |}.

(** ** The world: object store, database, round-trip log *)

Abbreviation loc := nat.

(** Objects of the store: the mutable containers a descriptor refers to. *)
Inductive obj :=
  | OClauses (cs : list clause)
  | OStrs (l : list string)
  | ODict (d : Dict).

(** What reaches the outside: database round trips and signals. *)
Inductive event :=
  | Fetch_all (e : select)
  | Execute (s : statement)
  | Execute_many (s : statement) (params : list kwargs)
  | Send (signal : string) (sender : string) (instance : Instance).

Record world := World {
  heap : list obj;
  database : gmap string (list Row);
  log : list event }.

Definition set_heap (h : list obj) (w : world) : world :=
  {| heap := h; database := database w; log := log w |}.

Definition set_database (d : gmap string (list Row)) (w : world) : world :=
  {| heap := heap w; database := d; log := log w |}.

Definition add_event (e : event) (w : world) : world :=
  {| heap := heap w; database := database w; log := log w ++ [e] |}.

(** ** Exceptions and the monad of effectful code *)

Inductive exn :=
  | NoMatch
  | MultipleMatches
  | QueryDefinitionError (msg : string)
  | ModelPersistenceError (msg : string)
  | ModelError (msg : string)
  | ValueError (msg : string)
  | KeyError (key : string)
  | OtherError (name : string).

#[global] Instance exn_eq_dec : EqDecision exn.
Proof. solve_decision. Defined.

Inductive result (A : Type) :=
  | Ok (a : A)
  | Raise (e : exn).
Arguments Ok {A} a.
Arguments Raise {A} e.

Definition M (A : Type) : Type := world -> result A * world.

Definition ret {A} (a : A) : M A := fun w => (Ok a, w).

Definition raise {A} (e : exn) : M A := fun w => (Raise e, w).

Definition bind {A B} (m : M A) (k : A -> M B) : M B :=
  fun w =>
    match m w with
    | (Ok a, w') => k a w'
    | (Raise e, w') => (Raise e, w')
    end.

Notation "x <- m ;; k" := (bind m (fun x => k))
  (at level 100, m at next level, right associativity,
   format "'[v' x  <-  m  ;;  '/' k ']'").

(** [try: m except e: h] *)
Definition try_except {A} (m : M A) (e : exn) (h : M A) : M A :=
  fun w =>
    match m w with
    | (Ok a, w') => (Ok a, w')
    | (Raise e', w') => if decide (e' = e) then h w' else (Raise e', w')
    end.

(** Lifting a fallible pure computation. *)
Definition lift {A} (r : result A) : M A := fun w => (r, w).

(** *** The object store *)

(** A new object gets the next free address. *)
Definition alloc (o : obj) : M loc :=
  fun w => (Ok (length (heap w)), set_heap (heap w ++ [o]) w).

(** Reads, by the type of object the reference is known to hold. *)
Definition clauses_at (h : list obj) (l : loc) : list clause :=
  match h !! l with Some (OClauses cs) => cs | _ => [] end.

Definition strs_at (h : list obj) (l : loc) : list string :=
  match h !! l with Some (OStrs ss) => ss | _ => [] end.

Definition dict_at (h : list obj) (l : loc) : Dict :=
  match h !! l with Some (ODict d) => d | _ => [] end.

Definition get_clauses (l : loc) : M (list clause) := fun w => (Ok (clauses_at (heap w) l), w).
Definition get_strs (l : loc) : M (list string) := fun w => (Ok (strs_at (heap w) l), w).
Definition get_dict (l : loc) : M Dict := fun w => (Ok (dict_at (heap w) l), w).

(** What a callee that was handed a dict by reference leaves in it. *)
Definition set_dict (l : loc) (d : Dict) : M unit :=
  fun w =>
    match heap w !! l with
    | Some (ODict _) => (Ok tt, set_heap (<[l := ODict d]> (heap w)) w)
    | _ => (Ok tt, w)
    end.

(** Python truthiness of a container: it is not empty. *)
Definition obj_truthy (o : obj) : bool :=
  match o with
  | OClauses [] | OStrs [] | ODict [] => false
  | _ => true
  end.

Definition truthy (l : loc) : M bool :=
  fun w => (Ok (match heap w !! l with Some o => obj_truthy o | None => false end), w).

(** *** The database *)

(** Appends one round trip to the log. *)
Definition emit (e : event) : M unit := fun w => (Ok tt, add_event e w).

(** ** Model classes *)

(** A model class as the query set uses it: the attributes of its [Meta]
    and the class methods the query set calls.  The schema system that
    declares models is outside the query-set engine, so the methods are
    fields: the query set is verified for every model class. *)
Record Model := mkModel {
  model_name : string;                        (* [__name__] *)
  pkname : string;                            (* [Meta.pkname] *)
  tablename : string;                         (* [Meta.table] *)
  table_columns : list string;                (* [[c.name for c in Meta.table.c]] *)
  model_fields : list (string * option value);(* [Meta.model_fields]: name, [server_default] *)
  requires_ref_update : bool;                 (* [Meta.requires_ref_update] *)
  extract_db_own_fields : gset string;
  extract_related_names : gset string;
  get_column_alias : string -> string;
  translate_columns_to_aliases : kwargs -> kwargs;
  substitute_models_with_pks : kwargs -> kwargs;
  prepare_model_to_save : kwargs -> kwargs;
  is_pk_type : value -> bool;                 (* [isinstance(v, pk_type())] *)
  from_row : Row -> list string -> Dict -> Dict -> option Instance;
  merge_instances_list : list (option Instance) -> list (option Instance);
  new_instance : kwargs -> result Instance;   (* [Model(kwargs)], which validates *)
  load : Instance -> M Instance }.

(** [instance.pk = v] *)
Definition set_pk (m : Model) (v : value) (i : Instance) : Instance :=
  {| inst_dict := dict_set (pkname m) v (inst_dict i); inst_saved := inst_saved i |}.

(** ** Collaborators from the rest of the package *)

(** *** [ormar.queryset.clause.QueryClause] *)

(** The operator suffixes a keyword of [filter] may end with. *)
Definition filter_operators : list string :=
  ["exact"; "iexact"; "contains"; "icontains"; "in"; "gt"; "gte"; "lt"; "lte";
   "startswith"; "istartswith"; "endswith"; "iendswith"].

(** [s.split("__")] *)
Fixpoint split_dunder_from (cur s : string) : list string :=
  match s with
  | EmptyString => [cur]
  | String "_"%char (String "_"%char rest) => cur :: split_dunder_from "" rest
  | String a rest => split_dunder_from (cur +:+ String a "") rest
  end.

Definition split_dunder (s : string) : list string := split_dunder_from "" s.

(** ["__".join(parts)] *)
Fixpoint join_dunder (parts : list string) : string :=
  match parts with
  | [] => ""
  | [p] => p
  | p :: ps => p +:+ "__" +:+ join_dunder ps
  end.

(** The relation path a qualified field name crosses, if any: what is left
    of the name once the operator suffix and the field are removed. *)
Definition relation_path (key : string) : option string :=
  let parts := split_dunder key in
  let parts :=
    match reverse parts with
    | op :: rest => if bool_decide (op ∈ filter_operators) then reverse rest else parts
    | [] => parts
    end in
  match reverse parts with
  | _ :: (_ :: _) as path => Some (join_dunder (reverse path))
  | _ => None
  end.

(** Modelled from the spec: [QueryClause(model_cls, select_related,
    filter_clauses).prepare_filter(kwargs)], whose module is not part of
    this file.  It compiles each keyword into one clause, added after the
    clauses the [QueryClause] was built with, and extends the select-related
    paths by every relation path a keyword crosses.  It returns new lists and
    leaves the lists it was given as they are.  A clause keeps the keyword
    as it was written, operator suffix and [pk] included: what it means of a
    row is the business of [Clauses] below. *)
Definition prepare_filter (model_cls : Model) (select_related : list string)
    (filter_clauses : list clause) (kw : kwargs) : list clause * list string :=
  (filter_clauses ++ map (fun kv => Clause kv.1 kv.2) kw,
   fold_left
     (fun sr kv =>
        match relation_path kv.1 with
        | Some p => if bool_decide (p ∈ sr) then sr else sr ++ [p]
        | None => sr
        end)
     kw select_related).

(** *** [ormar.queryset.FilterQuery] and [ormar.queryset.query.Query] *)

(** Modelled from the spec: [FilterQuery(filter_clauses, exclude).apply(expr)],
    not part of this file.  A non-empty clause list adds one condition to the
    expression: the conjunction of the clauses, negated as a whole when
    [exclude] is set.  An empty list adds nothing. *)
Definition FilterQuery_apply (filter_clauses : list clause) (exclude : bool)
    (cond : list bexp) : list bexp :=
  match filter_clauses with
  | [] => cond
  | _ =>
      let conj := BAnd (map BClause filter_clauses) in
      cond ++ [if exclude then BNot conj else conj]
  end.

(** The arguments [QuerySet.build_select_expression] builds a [Query] with. *)
Record Query := mkQuery {
  q_model_cls : Model;
  q_select_related : list string;
  q_filter_clauses : list clause;
  q_exclude_clauses : list clause;
  q_offset : option Z;
  q_limit_count : option Z;
  q_fields : Dict;
  q_exclude_fields : Dict;
  q_order_bys : list string;
  q_limit_raw_sql : bool }.

(** Modelled from the spec: [Query.build_select_expression()], not part of
    this file.  The expression selects from the model's table, joined along
    the select-related paths, with the filter clauses ANDed and the exclude
    clauses as NOT of their conjunction, then the ordering, and the limit
    and offset of the query. *)
Definition Query_build_select_expression (q : Query) : select :=
  {| sel_table := tablename (q_model_cls q);
     sel_joins := q_select_related q;
     sel_fields := q_fields q;
     sel_exclude_fields := q_exclude_fields q;
     sel_where :=
       FilterQuery_apply (q_exclude_clauses q) true
         (FilterQuery_apply (q_filter_clauses q) false []);
     sel_order_by := q_order_bys q;
     sel_limit := q_limit_count q;
     sel_offset := q_offset q;
     sel_limit_raw := q_limit_raw_sql q |}.

(** *** [ormar.queryset.utils] *)

(** The mask helpers [update] and [update_dict_from_list] of
    [ormar.queryset.utils], which is not part of this file, are parameters.
    The query set hands them the current mask by reference and keeps the
    dict they return.  A helper is given by what it does to the object graph
    it can reach: the contents it leaves in the dict it was handed, and the
    dict it returns, [None] for the very dict it was handed and [Some d] for
    a new dict holding [d].  A mask is taken as one object: the dicts nested
    in it are part of it.  How names are merged into a mask, and whether the
    dict handed over is changed, is left to the implementation: the query
    set is verified for every one. *)
Module utils.
Class Utils := {
  update : Dict -> Dict -> Dict * option Dict;
  update_dict_from_list : Dict -> list string -> Dict * option Dict }.
End utils.
Export (hints) utils.

(** *** [ormar.queryset.prefetch_query.PrefetchQuery] *)

(** The arguments [_prefetch_related_models] builds a [PrefetchQuery] with. *)
Record PrefetchQuery := mkPrefetchQuery {
  pq_model_cls : Model;
  pq_fields : Dict;
  pq_exclude_fields : Dict;
  pq_prefetch_related : list string;
  pq_select_related : list string;
  pq_orders_by : list string }.

(** Modelled from the spec: [PrefetchQuery.prefetch_related(models, rows)],
    not part of this file.  It runs its own round trips, one or more per
    requested relation path, and returns the models with the prefetched
    relations attached.  The query set is verified for every
    implementation. *)
Class Prefetch := prefetch_related_models :
  PrefetchQuery -> list (option Instance) -> list Row -> M (list (option Instance)).

(** *** [ormar.Model.update] *)

(** Modelled from the spec: the instance method [Model.update(kwargs)], not
    part of this file.  It sets the given fields on the instance, writes the
    instance back with its own round trip and returns it.  The query set is
    verified for every implementation. *)
Class InstanceUpdate := instance_update : Instance -> kwargs -> M Instance.

(** ** The database *)

(** The database is the environment of the query set.  It holds one list of
    rows per table and evaluates expressions row by row. *)

(** Modelled from the spec: the filter-clause compiler, which is not part of
    this file.  It translates a qualified field name, with its optional
    operator suffix, and a literal into a boolean fragment of the
    expression.  What the fragment means is a parameter: whether the clause
    holds of a row of the table the expression is about, the operator
    suffix and the name [pk] for the primary key taken into account.  The
    query set is verified for every such meaning. *)
Class Clauses := clause_holds : string -> Row -> clause -> bool.

(** Truth of a condition, given the truth of its clauses. *)
Fixpoint holds (ev : clause -> bool) (b : bexp) : bool :=
  match b with
  | BClause c => ev c
  | BAnd bs => forallb (holds ev) bs
  | BNot b' => negb (holds ev b')
  end.

Definition row_matches {Cl : Clauses} (t : string) (cond : list bexp) (r : Row) : bool :=
  forallb (holds (clause_holds t r)) cond.

(** Ordering of scalars: [None] first, then integers, then strings. *)
Definition value_compare (a b : value) : comparison :=
  match a, b with
  | VNone, VNone => Eq
  | VNone, _ => Lt
  | _, VNone => Gt
  | VInt x, VInt y => Z.compare x y
  | VInt _, VStr _ => Lt
  | VStr _, VInt _ => Gt
  | VStr x, VStr y => String.compare x y
  end.

Definition column (k : string) (r : Row) : value := default VNone (dict_get k r).

(** One sort specification: a column, descending when prefixed by [-]. *)
Definition key_compare (key : string) (r1 r2 : Row) : comparison :=
  match key with
  | String "-"%char k => value_compare (column k r2) (column k r1)
  | _ => value_compare (column key r1) (column key r2)
  end.

Fixpoint row_compare (order_by : list string) (r1 r2 : Row) : comparison :=
  match order_by with
  | [] => Eq
  | key :: keys =>
      match key_compare key r1 r2 with
      | Eq => row_compare keys r1 r2
      | c => c
      end
  end.

Definition row_le (order_by : list string) (r1 r2 : Row) : bool :=
  match row_compare order_by r1 r2 with Gt => false | _ => true end.

Fixpoint insert_row (order_by : list string) (r : Row) (rows : list Row) : list Row :=
  match rows with
  | [] => [r]
  | r' :: rows' =>
      if row_le order_by r r' then r :: rows else r' :: insert_row order_by r rows'
  end.

(** ORDER BY: a stable sort. *)
Fixpoint sort_rows (order_by : list string) (rows : list Row) : list Row :=
  match rows with
  | [] => []
  | r :: rows' => insert_row order_by r (sort_rows order_by rows')
  end.

(** OFFSET, then LIMIT. *)
Definition paginate (limit offset : option Z) (rows : list Row) : list Row :=
  let rows := match offset with Some n => drop (Z.to_nat n) rows | None => rows end in
  match limit with Some n => take (Z.to_nat n) rows | None => rows end.

Definition table_rows (db : gmap string (list Row)) (t : string) : list Row :=
  default [] (db !! t).

Definition run_select {Cl : Clauses} (db : gmap string (list Row)) (e : select) : list Row :=
  paginate (sel_limit e) (sel_offset e)
    (sort_rows (sel_order_by e)
       (List.filter (row_matches (sel_table e) (sel_where e))
          (table_rows db (sel_table e)))).

(** [d.update(values)] *)
Definition row_update (values : kwargs) (r : Row) : Row :=
  fold_left (fun r kv => dict_set kv.1 kv.2 r) values r.

(** The greatest integer key of a table, 0 when there is none. *)
Definition max_key (k : string) (rows : list Row) : Z :=
  fold_left (fun m r => match column k r with VInt n => Z.max m n | _ => m end) rows 0%Z.

(** One parameter set of [UpdateMany]: the row whose key is [new_<pk>] gets
    [new_<c>] in each column [c]. *)
Definition update_one (pk_column : string) (columns : list string) (p : kwargs)
    (r : Row) : Row :=
  if bool_decide (is_Some (dict_get pk_column r)
                  /\ dict_get pk_column r = dict_get ("new_" +:+ pk_column) p)
  then fold_left
         (fun r c => match dict_get ("new_" +:+ c) p with
                     | Some v => dict_set c v r
                     | None => r
                     end)
         columns r
  else r.

(** What a statement does to the tables, and the value it returns: the
    number of rows it touched, or the key of the inserted row.  The database
    refuses an update that sets no column (there is nothing after SET) and
    an insert whose primary key is already in the table. *)
Definition run_statement {Cl : Clauses} (s : statement) (params : list kwargs)
    (db : gmap string (list Row)) : result (gmap string (list Row) * value) :=
  match s with
  | Update t values cond =>
      match values with
      | [] => Raise (OtherError "OperationalError")
      | _ =>
          let rows := table_rows db t in
          Ok (<[t := map (fun r => if row_matches t cond r then row_update values r else r)
                       rows]> db,
              VInt (Z.of_nat (length (List.filter (row_matches t cond) rows))))
      end
  | Delete t cond =>
      let rows := table_rows db t in
      Ok (<[t := List.filter (fun r => negb (row_matches t cond r)) rows]> db,
          VInt (Z.of_nat (length (List.filter (row_matches t cond) rows))))
  | Insert t pk_column values =>
      let rows := table_rows db t in
      match dict_get pk_column values with
      | Some VNone | None =>
          let key := VInt (max_key pk_column rows + 1) in
          Ok (<[t := rows ++ [dict_set pk_column key values]]> db, key)
      | Some key =>
          if existsb (fun r => bool_decide (dict_get pk_column r = Some key)) rows
          then Raise (OtherError "IntegrityError")
          else Ok (<[t := rows ++ [dict_set pk_column key values]]> db, key)
      end
  | UpdateMany t pk_column columns =>
      match columns, params with
      | [], _ :: _ => Raise (OtherError "OperationalError")
      | _, _ =>
          Ok (<[t := fold_left (fun rows p => map (update_one pk_column columns p) rows)
                       params (table_rows db t)]> db,
              VNone)
      end
  end.

(** [await database.fetch_all(expr)] *)
Definition fetch_all {Cl : Clauses} (e : select) : M (list Row) :=
  fun w => (Ok (run_select (database w) e), add_event (Fetch_all e) w).

(** [await database.execute(expr)]: the statement is sent; when the database
    refuses it, nothing is changed and the error comes back. *)
Definition execute {Cl : Clauses} (s : statement) : M value :=
  fun w =>
    match run_statement s [] (database w) with
    | Ok (db, v) => (Ok v, add_event (Execute s) (set_database db w))
    | Raise e => (Raise e, add_event (Execute s) w)
    end.

(** [await database.execute_many(expr, params)] *)
Definition execute_many {Cl : Clauses} (s : statement) (params : list kwargs) : M unit :=
  fun w =>
    match run_statement s params (database w) with
    | Ok (db, _) => (Ok tt, add_event (Execute_many s params) (set_database db w))
    | Raise e => (Raise e, add_event (Execute_many s params) w)
    end.

(** ** The query set *)

(** A [QuerySet] object.  Its attributes are assigned once, in [__init__];
    the lists and dicts among them are references into the store. *)
Record QuerySet := mkQuerySet {
  model_cls : option Model;
  filter_clauses : loc;
  exclude_clauses : loc;
  _select_related : loc;
  _prefetch_related : loc;
  limit_count : option Z;
  query_offset : option Z;
  _columns : loc;
  _exclude_columns : loc;
  order_bys : loc;
  limit_sql_raw : bool }.

(** An argument of type [Union[List, str]]. *)
Inductive str_or_list :=
  | Str (s : string)
  | Lst (l : list string).

(** [if not isinstance(x, list): x = [x]] *)
Definition as_list (x : str_or_list) : list string :=
  match x with Str s => [s] | Lst l => l end.

(** An argument of type [Union[List, str, Set, Dict]]. *)
Inductive columns_arg :=
  | ColStr (s : string)
  | ColList (l : list string)
  | ColSet (s : gset string)
  | ColDict (d : Dict).

(** [a or b] on optional integers and on optional lists. *)
Definition or_int (a b : option Z) : option Z :=
  match a with
  | Some 0%Z | None => b
  | Some n => Some n
  end.

Definition or_list {A} (a : option (list A)) (b : list A) : list A :=
  match a with
  | Some (x :: l) => x :: l
  | _ => b
  end.

(** Truthiness of a scalar. *)
Definition value_truthy (v : value) : bool :=
  match v with
  | VNone | VInt 0%Z | VStr EmptyString => false
  | _ => true
  end.

(** [for x in l: ...] with an effectful body that yields one result each. *)
Fixpoint for_each {A B} (f : A -> M B) (l : list A) : M (list B) :=
  match l with
  | [] => ret []
  | x :: l' => y <- f x ;; ys <- for_each f l' ;; ret (y :: ys)
  end.

Module QuerySet.
Section methods.
Context {Cl : Clauses} {Ut : utils.Utils} {Pf : Prefetch}.

(** [x or {}], [x or []] for an argument: the object itself when it is
    given and not empty, a new empty one otherwise. *)
Definition or_new (x : option loc) (empty : obj) : M loc :=
  match x with
  | Some l => t <- truthy l ;; if t then ret l else alloc empty
  | None => alloc empty
  end.

(** [[] if x is None else x] *)
Definition new_if_none (x : option loc) (empty : obj) : M loc :=
  match x with
  | Some l => ret l
  | None => alloc empty
  end.

Definition __init__ (model_cls : option Model)
    (filter_clauses exclude_clauses select_related : option loc)
    (limit_count offset : option Z)
    (columns exclude_columns order_bys prefetch_related : option loc)
    (limit_raw_sql : bool) : M QuerySet :=
  fc <- new_if_none filter_clauses (OClauses []) ;;
  ec <- new_if_none exclude_clauses (OClauses []) ;;
  sr <- new_if_none select_related (OStrs []) ;;
  pr <- new_if_none prefetch_related (OStrs []) ;;
  cols <- or_new columns (ODict []) ;;
  excl <- or_new exclude_columns (ODict []) ;;
  obs <- or_new order_bys (OStrs []) ;;
  ret (mkQuerySet model_cls fc ec sr pr limit_count offset cols excl obs limit_raw_sql).

(** [Model.objects]: the descriptor protocol, for an owner that is a model
    class. *)
Definition __get__ (owner : Model) : M QuerySet :=
  if requires_ref_update owner
  then raise (ModelError "Model has not updated ForwardRefs.")
  else __init__ (Some owner) None None None None None None None None None false.

Definition model (self : QuerySet) : M Model :=
  match model_cls self with
  | Some m => ret m
  | None => raise (ValueError "Model class of QuerySet is not initialized")
  end.

(** The [Meta] of the model is part of [Model]. *)
Definition model_meta (self : QuerySet) : M Model :=
  match model_cls self with
  | Some m => ret m
  | None => raise (ValueError "Model class of QuerySet is not initialized")
  end.

(** [filter] and [exclude] share one body; [prepare_filter] hands back two
    new lists. *)
Definition filter (self : QuerySet) (_exclude : bool) (kw : kwargs) : M QuerySet :=
  m <- model self ;;
  sr <- get_strs (_select_related self) ;;
  fcs <- get_clauses (filter_clauses self) ;;
  let prepared := prepare_filter m sr fcs kw in
  new_clauses <- alloc (OClauses prepared.1) ;;
  select_related <- alloc (OStrs prepared.2) ;;
  let exclude_clauses' := if _exclude then new_clauses else exclude_clauses self in
  let filter_clauses' := if _exclude then filter_clauses self else new_clauses in
  m' <- model self ;;
  __init__ (Some m') (Some filter_clauses') (Some exclude_clauses')
    (Some select_related) (limit_count self) (query_offset self)
    (Some (_columns self)) (Some (_exclude_columns self))
    (Some (order_bys self)) (Some (_prefetch_related self)) (limit_sql_raw self).

Definition exclude (self : QuerySet) (kw : kwargs) : M QuerySet :=
  filter self true kw.

Definition select_related (self : QuerySet) (related : str_or_list) : M QuerySet :=
  let related := as_list related in
  cur <- get_strs (_select_related self) ;;
  related <- alloc (OStrs (elements (list_to_set (cur ++ related) : gset string))) ;;
  m <- model self ;;
  __init__ (Some m) (Some (filter_clauses self)) (Some (exclude_clauses self))
    (Some related) (limit_count self) (query_offset self)
    (Some (_columns self)) (Some (_exclude_columns self))
    (Some (order_bys self)) (Some (_prefetch_related self)) (limit_sql_raw self).

Definition prefetch_related (self : QuerySet) (related : str_or_list) : M QuerySet :=
  let related := as_list related in
  cur <- get_strs (_prefetch_related self) ;;
  related <- alloc (OStrs (elements (list_to_set (cur ++ related) : gset string))) ;;
  m <- model self ;;
  __init__ (Some m) (Some (filter_clauses self)) (Some (exclude_clauses self))
    (Some (_select_related self)) (limit_count self) (query_offset self)
    (Some (_columns self)) (Some (_exclude_columns self))
    (Some (order_bys self)) (Some related) (limit_sql_raw self).

(** The helper the mask is handed to, by the type of [columns]. *)
Definition updated_mask (current : Dict) (columns : columns_arg) : Dict * option Dict :=
  match columns with
  | ColStr s => utils.update_dict_from_list current [s]
  | ColList l => utils.update_dict_from_list current l
  | ColSet s => utils.update_dict_from_list current (elements s)
  | ColDict d => utils.update current d
  end.

(** [current = helper(current, columns)], with the dict behind [current]
    handed over by reference: the helper leaves in it what it leaves, and
    the reference that comes back is the same one or a new dict. *)
Definition call_mask_helper (current : loc) (columns : columns_arg) : M loc :=
  cur <- get_dict current ;;
  let outcome := updated_mask cur columns in
  _ <- set_dict current outcome.1 ;;
  match outcome.2 with
  | None => ret current
  | Some d => alloc (ODict d)
  end.

Definition fields (self : QuerySet) (columns : columns_arg) : M QuerySet :=
  current_included <- call_mask_helper (_columns self) columns ;;
  m <- model self ;;
  __init__ (Some m) (Some (filter_clauses self)) (Some (exclude_clauses self))
    (Some (_select_related self)) (limit_count self) (query_offset self)
    (Some current_included) (Some (_exclude_columns self))
    (Some (order_bys self)) (Some (_prefetch_related self)) (limit_sql_raw self).

Definition exclude_fields (self : QuerySet) (columns : columns_arg) : M QuerySet :=
  current_excluded <- call_mask_helper (_exclude_columns self) columns ;;
  m <- model self ;;
  __init__ (Some m) (Some (filter_clauses self)) (Some (exclude_clauses self))
    (Some (_select_related self)) (limit_count self) (query_offset self)
    (Some (_columns self)) (Some current_excluded)
    (Some (order_bys self)) (Some (_prefetch_related self)) (limit_sql_raw self).

Definition order_by (self : QuerySet) (columns : str_or_list) : M QuerySet :=
  let columns := as_list columns in
  cur <- get_strs (order_bys self) ;;
  order_bys' <-
    alloc (OStrs (cur ++ List.filter (fun x => negb (bool_decide (x ∈ cur))) columns)) ;;
  m <- model self ;;
  __init__ (Some m) (Some (filter_clauses self)) (Some (exclude_clauses self))
    (Some (_select_related self)) (limit_count self) (query_offset self)
    (Some (_columns self)) (Some (_exclude_columns self))
    (Some order_bys') (Some (_prefetch_related self)) (limit_sql_raw self).

Definition limit (self : QuerySet) (limit_count : Z) (limit_raw_sql : option bool)
    : M QuerySet :=
  let limit_raw_sql := default (limit_sql_raw self) limit_raw_sql in
  m <- model self ;;
  __init__ (Some m) (Some (filter_clauses self)) (Some (exclude_clauses self))
    (Some (_select_related self)) (Some limit_count) (query_offset self)
    (Some (_columns self)) (Some (_exclude_columns self))
    (Some (order_bys self)) (Some (_prefetch_related self)) limit_raw_sql.

Definition offset (self : QuerySet) (offset : Z) (limit_raw_sql : option bool)
    : M QuerySet :=
  let limit_raw_sql := default (limit_sql_raw self) limit_raw_sql in
  m <- model self ;;
  __init__ (Some m) (Some (filter_clauses self)) (Some (exclude_clauses self))
    (Some (_select_related self)) (limit_count self) (Some offset)
    (Some (_columns self)) (Some (_exclude_columns self))
    (Some (order_bys self)) (Some (_prefetch_related self)) limit_raw_sql.

(** [self.filter(kwargs)] when keyword arguments are given, [self] when
    not: the descriptor a terminal operation called with criteria runs on. *)
Definition with_criteria (self : QuerySet) (kw : kwargs) : M QuerySet :=
  match kw with
  | _ :: _ => filter self false kw
  | [] => ret self
  end.

(** *** Compiling and running the query *)

Definition build_select_expression (self : QuerySet) (limit offset : option Z)
    (order_bys_arg : option (list string)) : M select :=
  m <- model self ;;
  sr <- get_strs (_select_related self) ;;
  fcs <- get_clauses (filter_clauses self) ;;
  ecs <- get_clauses (exclude_clauses self) ;;
  cols <- get_dict (_columns self) ;;
  excl <- get_dict (_exclude_columns self) ;;
  obs <- get_strs (order_bys self) ;;
  let qry :=
    {| q_model_cls := m;
       q_select_related := sr;
       q_filter_clauses := fcs;
       q_exclude_clauses := ecs;
       q_offset := or_int offset (query_offset self);
       q_limit_count := or_int limit (limit_count self);
       q_fields := cols;
       q_exclude_fields := excl;
       q_order_bys := or_list order_bys_arg obs;
       q_limit_raw_sql := limit_sql_raw self |} in
  ret (Query_build_select_expression qry).

Definition _process_query_result_rows (self : QuerySet) (rows : list Row)
    : M (list (option Instance)) :=
  match rows with
  | [] => ret []
  | _ =>
      m <- model self ;;
      sr <- get_strs (_select_related self) ;;
      cols <- get_dict (_columns self) ;;
      excl <- get_dict (_exclude_columns self) ;;
      let result_rows := map (fun row => from_row m row sr cols excl) rows in
      ret (merge_instances_list m result_rows)
  end.

Definition _prefetch_related_models (self : QuerySet)
    (models : list (option Instance)) (rows : list Row) : M (list (option Instance)) :=
  m <- model self ;;
  cols <- get_dict (_columns self) ;;
  excl <- get_dict (_exclude_columns self) ;;
  pr <- get_strs (_prefetch_related self) ;;
  sr <- get_strs (_select_related self) ;;
  obs <- get_strs (order_bys self) ;;
  prefetch_related_models
    {| pq_model_cls := m;
       pq_fields := cols;
       pq_exclude_fields := excl;
       pq_prefetch_related := pr;
       pq_select_related := sr;
       pq_orders_by := obs |}
    models rows.

Definition check_single_result_rows_count (rows : list (option Instance)) : M unit :=
  match rows with
  | [] | None :: _ => raise NoMatch
  | Some _ :: _ =>
      if bool_decide (1 < length rows) then raise MultipleMatches else ret tt
  end.

(** [rows = await fetch_all(expr)], then reconciliation and, when asked for
    and there is something to attach to, the prefetch queries: the part that
    [first], [get] and [all] have in common. *)
Definition fetch_and_process (self : QuerySet) (expr : select)
    : M (list (option Instance)) :=
  _ <- model_meta self ;;
  rows <- fetch_all expr ;;
  processed_rows <- _process_query_result_rows self rows ;;
  pr <- truthy (_prefetch_related self) ;;
  match processed_rows with
  | _ :: _ => if pr then _prefetch_related_models self processed_rows rows
              else ret processed_rows
  | [] => ret processed_rows
  end.

(** [return processed_rows[0]] *)
Definition first_of (rows : list (option Instance)) : M Instance :=
  match rows with
  | Some i :: _ => ret i
  | _ => raise (OtherError "IndexError")
  end.

(** The expression [first()] runs: the first row by primary key. *)
Definition first_expression (self : QuerySet) : M select :=
  m <- model self ;;
  obs <- get_strs (order_bys self) ;;
  build_select_expression self (Some 1%Z) None (Some ([pkname m] ++ obs)).

(** [first()] without keyword arguments. *)
Definition first_ (self : QuerySet) : M Instance :=
  expr <- first_expression self ;;
  processed_rows <- fetch_and_process self expr ;;
  _ <- check_single_result_rows_count processed_rows ;;
  first_of processed_rows.

Definition first (self : QuerySet) (kw : kwargs) : M Instance :=
  match kw with
  | _ :: _ => qs <- filter self false kw ;; first_ qs
  | [] => first_ self
  end.

(** The expression [get()] runs: without filter clauses, the last row by
    primary key. *)
Definition get_expression (self : QuerySet) : M select :=
  fcs <- get_clauses (filter_clauses self) ;;
  match fcs with
  | [] =>
      m <- model self ;;
      obs <- get_strs (order_bys self) ;;
      build_select_expression self (Some 1%Z) None (Some (["-" +:+ pkname m] ++ obs))
  | _ => build_select_expression self None None None
  end.

(** [get()] without keyword arguments. *)
Definition get_ (self : QuerySet) : M Instance :=
  expr <- get_expression self ;;
  processed_rows <- fetch_and_process self expr ;;
  _ <- check_single_result_rows_count processed_rows ;;
  first_of processed_rows.

Definition get (self : QuerySet) (kw : kwargs) : M Instance :=
  match kw with
  | _ :: _ => qs <- filter self false kw ;; get_ qs
  | [] => get_ self
  end.

Definition all (self : QuerySet) (kw : kwargs) : M (list (option Instance)) :=
  match kw with
  | _ :: _ =>
      qs <- filter self false kw ;;
      expr <- build_select_expression qs None None None ;;
      fetch_and_process qs expr
  | [] =>
      expr <- build_select_expression self None None None ;;
      fetch_and_process self expr
  end.

(** *** Operations that change the database *)

Definition update (self : QuerySet) (each : bool) (kw : kwargs) : M value :=
  m <- model self ;;
  let self_fields := extract_db_own_fields m ∪ extract_related_names m in
  let updates := List.filter (fun kv => bool_decide (kv.1 ∈ self_fields)) kw in
  let updates := translate_columns_to_aliases m updates in
  fcs <- get_clauses (filter_clauses self) ;;
  if negb each && negb (bool_decide (fcs <> []))
  then raise (QueryDefinitionError
                "You cannot update without filtering the queryset first.")
  else
    t <- model_meta self ;;
    execute (Update (tablename t) updates (FilterQuery_apply fcs false [])).

(** [delete()] without keyword arguments. *)
Definition delete_ (self : QuerySet) (each : bool) : M value :=
  fcs <- get_clauses (filter_clauses self) ;;
  if negb each && negb (bool_decide (fcs <> []))
  then raise (QueryDefinitionError
                "You cannot delete without filtering the queryset first.")
  else
    t <- model_meta self ;;
    execute (Delete (tablename t) (FilterQuery_apply fcs false [])).

Definition delete (self : QuerySet) (each : bool) (kw : kwargs) : M value :=
  match kw with
  | _ :: _ => qs <- filter self false kw ;; delete_ qs false
  | [] => delete_ self each
  end.

Definition create (self : QuerySet) (kw : kwargs) : M Instance :=
  m <- model self ;;
  let new_kwargs := prepare_model_to_save m kw in
  t <- model_meta self ;;
  let expr := Insert (tablename t) (get_column_alias t (pkname t)) new_kwargs in
  instance <- lift (new_instance m kw) ;;
  _ <- emit (Send "pre_save" (model_name m) instance) ;;
  pk <- execute expr ;;
  let pk_name := get_column_alias m (pkname m) in
  instance <-
    (if negb (dict_has pk_name kw) && dict_has pk_name new_kwargs
     then match dict_get (pkname m) new_kwargs with
          | Some v => ret (set_pk m v instance)
          | None => raise (KeyError (pkname m))
          end
     else ret instance) ;;
  let instance :=
    if value_truthy pk && is_pk_type m pk then set_pk m pk instance else instance in
  instance <-
    (if existsb (fun f => bool_decide (is_Some f.2) && negb (dict_has f.1 kw))
          (model_fields m)
     then load m instance
     else ret instance) ;;
  let instance := set_save_status true instance in
  _ <- emit (Send "post_save" (model_name m) instance) ;;
  ret instance.

Definition get_or_create (self : QuerySet) (kw : kwargs) : M Instance :=
  try_except (get self kw) NoMatch (create self kw).

(** One turn of the loop of [bulk_update] over the objects. *)
Definition ready_object (m : Model) (pk_name : string) (columns : list string)
    (objt : Instance) : M kwargs :=
  let new_kwargs := inst_dict objt in
  if negb (dict_has pk_name new_kwargs)
     || bool_decide (default VNone (dict_get pk_name new_kwargs) = VNone)
  then raise (ModelPersistenceError "You cannot update unsaved objects.")
  else
    let new_kwargs := substitute_models_with_pks m new_kwargs in
    let new_kwargs := translate_columns_to_aliases m new_kwargs in
    ret (map (fun kv => ("new_" +:+ kv.1, kv.2))
           (List.filter (fun kv => bool_decide (kv.1 ∈ columns)) new_kwargs)).

(** Python returns [None] and flags the objects it was given; here the
    flagged objects are the result. *)
Definition bulk_update (self : QuerySet) (objects : list Instance)
    (columns : option (list string)) : M (list Instance) :=
  t <- model_meta self ;;
  let pk_name := pkname t in
  columns <-
    (match columns with
     | Some (c :: cs) => ret (c :: cs)
     | _ =>
         m <- model self ;;
         ret (elements (extract_db_own_fields m ∪ extract_related_names m))
     end) ;;
  let columns := if bool_decide (pk_name ∈ columns) then columns else columns ++ [pk_name] in
  m <- model self ;;
  let columns := map (get_column_alias m) columns in
  ready_objects <- for_each (ready_object m pk_name columns) objects ;;
  let pk_column_name := get_column_alias m pk_name in
  let expr :=
    UpdateMany (tablename t) pk_column_name
      (List.filter
         (fun k => negb (bool_decide (k = pk_column_name))
                   && bool_decide (k ∈ table_columns t))
         columns) in
  _ <- execute_many expr ready_objects ;;
  ret (map (set_save_status true) objects).

End methods.

Section upsert.
Context {Cl : Clauses} {Pf : Prefetch} {Iu : InstanceUpdate}.

Definition update_or_create (self : QuerySet) (kw : kwargs) : M Instance :=
  t <- model_meta self ;;
  let pk_name := pkname t in
  let kw :=
    match dict_get "pk" kw with
    | Some v => dict_set pk_name v (dict_pop "pk" kw)
    | None => kw
    end in
  if negb (dict_has pk_name kw)
     || bool_decide (default VNone (dict_get pk_name kw) = VNone)
  then create self kw
  else
    model <- get self [("pk", default VNone (dict_get pk_name kw))] ;;
    instance_update model kw.

End upsert.
End QuerySet.

(** ** Builder calls as data *)

(** One call of a fluent builder method, with its arguments. *)
Inductive builder_call :=
  | Filter (kw : kwargs)
  | Exclude (kw : kwargs)
  | Select_related (related : str_or_list)
  | Prefetch_related (related : str_or_list)
  | Fields (columns : columns_arg)
  | Exclude_fields (columns : columns_arg)
  | Order_by (columns : str_or_list)
  | Limit (limit_count : Z) (limit_raw_sql : option bool)
  | Offset (offset : Z) (limit_raw_sql : option bool).

Section calls.
Context {Cl : Clauses} {Ut : utils.Utils} {Pf : Prefetch}.

Definition call (self : QuerySet) (c : builder_call) : M QuerySet :=
  match c with
  | Filter kw => QuerySet.filter self false kw
  | Exclude kw => QuerySet.exclude self kw
  | Select_related r => QuerySet.select_related self r
  | Prefetch_related r => QuerySet.prefetch_related self r
  | Fields c => QuerySet.fields self c
  | Exclude_fields c => QuerySet.exclude_fields self c
  | Order_by c => QuerySet.order_by self c
  | Limit n raw => QuerySet.limit self n raw
  | Offset n raw => QuerySet.offset self n raw
  end.

(** A chain [qs.c1(...).c2(...)...]. *)
Fixpoint chain (self : QuerySet) (cs : list builder_call) : M QuerySet :=
  match cs with
  | [] => ret self
  | c :: cs' => qs <- call self c ;; chain qs cs'
  end.

End calls.

(** ** What a descriptor holds *)

(** The containers of a descriptor, by name. *)
Inductive container :=
  | Filter_clauses
  | Exclude_clauses
  | Select_related_list
  | Prefetch_related_list
  | Columns
  | Exclude_columns
  | Order_bys.

Definition container_loc (c : container) (qs : QuerySet) : loc :=
  match c with
  | Filter_clauses => filter_clauses qs
  | Exclude_clauses => exclude_clauses qs
  | Select_related_list => _select_related qs
  | Prefetch_related_list => _prefetch_related qs
  | Columns => _columns qs
  | Exclude_columns => _exclude_columns qs
  | Order_bys => order_bys qs
  end.

Definition all_containers : list container :=
  [Filter_clauses; Exclude_clauses; Select_related_list; Prefetch_related_list;
   Columns; Exclude_columns; Order_bys].

(** Every container of the descriptor is an object of the store. *)
Definition allocated (w : world) (qs : QuerySet) : Prop :=
  forall c, container_loc c qs < length (heap w).

(** The containers a builder call builds anew; it hands the others on.
    [fields] and [exclude_fields] build nothing themselves: their mask is
    the dict the helper returns. *)
Definition rebuilds (c : builder_call) (k : container) : bool :=
  match c, k with
  | Filter _, (Filter_clauses | Select_related_list) => true
  | Exclude _, (Exclude_clauses | Select_related_list) => true
  | Select_related _, Select_related_list => true
  | Prefetch_related _, Prefetch_related_list => true
  | Order_by _, Order_bys => true
  | _, _ => false
  end.

(** The builders that hand a mask of the descriptor to a helper. *)
Definition mask_call (c : builder_call) : bool :=
  match c with
  | Fields _ | Exclude_fields _ => true
  | _ => false
  end.

(** The containers [__init__] takes with [x or empty]: an empty one is
    replaced by a new empty object. *)
Definition defaulted (k : container) : bool :=
  match k with
  | Columns | Exclude_columns | Order_bys => true
  | _ => false
  end.


(** What can be observed of a descriptor: the contents of its containers
    and its scalar attributes. *)
Record observation := mkObservation {
  obs_filter_clauses : list clause;
  obs_exclude_clauses : list clause;
  obs_select_related : list string;
  obs_prefetch_related : list string;
  obs_limit_count : option Z;
  obs_query_offset : option Z;
  obs_columns : Dict;
  obs_exclude_columns : Dict;
  obs_order_bys : list string;
  obs_limit_sql_raw : bool }.

Definition observe (w : world) (qs : QuerySet) : observation :=
  {| obs_filter_clauses := clauses_at (heap w) (filter_clauses qs);
     obs_exclude_clauses := clauses_at (heap w) (exclude_clauses qs);
     obs_select_related := strs_at (heap w) (_select_related qs);
     obs_prefetch_related := strs_at (heap w) (_prefetch_related qs);
     obs_limit_count := limit_count qs;
     obs_query_offset := query_offset qs;
     obs_columns := dict_at (heap w) (_columns qs);
     obs_exclude_columns := dict_at (heap w) (_exclude_columns qs);
     obs_order_bys := strs_at (heap w) (order_bys qs);
     obs_limit_sql_raw := limit_sql_raw qs |}.

(** The store of the second world continues the store of the first, and
    nothing else differs. *)
Definition extends (w w' : world) : Prop :=
  heap w `prefix_of` heap w' /\ database w' = database w /\ log w' = log w.

(** An effectful computation that only adds objects to the store. *)
Definition grows {A} (m : M A) : Prop := forall w, extends w (m w).2.

(** The second world has every object of the first, unchanged unless it is
    a dict among [masks], whose contents may differ, and nothing else
    differs. *)
Definition keeps_but (masks : list loc) (w w' : world) : Prop :=
  length (heap w) <= length (heap w')
  /\ (forall l, l < length (heap w) ->
        heap w' !! l = heap w !! l
        \/ (l ∈ masks
            /\ exists d d', heap w !! l = Some (ODict d) /\ heap w' !! l = Some (ODict d')))
  /\ database w' = database w
  /\ log w' = log w.

(** An observation, the two masks left out. *)
Definition without_masks (o : observation) : observation :=
  let 'mkObservation fcs ecs sr pr lim off _ _ obs raw := o in
  mkObservation fcs ecs sr pr lim off [] [] obs raw.

(** The mask helpers leave the dict they are handed as it is. *)
Definition helpers_keep {Ut : utils.Utils} : Prop :=
  (forall cur d, (utils.update cur d).1 = cur)
  /\ (forall cur l, (utils.update_dict_from_list cur l).1 = cur).

(** The contents of the dict a helper returns. *)
Definition returned_mask (outcome : Dict * option Dict) : Dict :=
  match outcome.2 with
  | None => outcome.1
  | Some d => d
  end.

(** [order_by] on lists: the columns not yet in the list are added. *)
Definition add_order (cur : list string) (columns : str_or_list) : list string :=
  cur ++ List.filter (fun x => negb (bool_decide (x ∈ cur))) (as_list columns).

(** The specification's words for [order_by]: the paths are appended one by
    one, a path that is already present being skipped. *)
Fixpoint append_unseen (cur paths : list string) : list string :=
  match paths with
  | [] => cur
  | x :: paths' =>
      if bool_decide (x ∈ cur) then append_unseen cur paths'
      else append_unseen (cur ++ [x]) paths'
  end.

(** The three readings of a reference. *)
Definition reads (h : list obj) (l : loc) : list clause * list string * Dict :=
  (clauses_at h l, strs_at h l, dict_at h l).

(** What a builder call makes of the values of a descriptor: the values
    its result holds. *)
Definition after_call {Ut : utils.Utils} (m : Model) (o : observation) (c : builder_call)
    : observation :=
  let 'mkObservation fcs ecs sr pr lim off cols excl obs raw := o in
  match c with
  | Filter kw =>
      let p := prepare_filter m sr fcs kw in
      mkObservation p.1 ecs p.2 pr lim off cols excl obs raw
  | Exclude kw =>
      let p := prepare_filter m sr fcs kw in
      mkObservation fcs p.1 p.2 pr lim off cols excl obs raw
  | Select_related r =>
      mkObservation fcs ecs (elements (list_to_set (sr ++ as_list r) : gset string))
        pr lim off cols excl obs raw
  | Prefetch_related r =>
      mkObservation fcs ecs sr (elements (list_to_set (pr ++ as_list r) : gset string))
        lim off cols excl obs raw
  | Fields c =>
      mkObservation fcs ecs sr pr lim off
        (returned_mask (QuerySet.updated_mask cols c)) excl obs raw
  | Exclude_fields c =>
      mkObservation fcs ecs sr pr lim off cols
        (returned_mask (QuerySet.updated_mask excl c)) obs raw
  | Order_by c =>
      mkObservation fcs ecs sr pr lim off cols excl (add_order obs c) raw
  | Limit n r =>
      mkObservation fcs ecs sr pr (Some n) off cols excl obs (default raw r)
  | Offset n r =>
      mkObservation fcs ecs sr pr lim (Some n) cols excl obs (default raw r)
  end.

(** The two terminal operations that return one instance. *)
Inductive single_op :=
  | Get
  | First.

Section single_ops.
Context {Cl : Clauses} {Ut : utils.Utils} {Pf : Prefetch}.

Definition run_single (op : single_op) : QuerySet -> kwargs -> M Instance :=
  match op with
  | Get => QuerySet.get
  | First => QuerySet.first
  end.

Definition expression_of (op : single_op) : QuerySet -> M select :=
  match op with
  | Get => QuerySet.get_expression
  | First => QuerySet.first_expression
  end.

End single_ops.

(** ** What the query set expects of its collaborators *)

(** Merging the instances of the rows never gives more instances than rows. *)
Definition merge_never_longer (m : Model) : Prop :=
  forall l, length (merge_instances_list m l) <= length l.


(** Rows are reconciled by their primary key: of rows that all have one, the
    merged instances start with an instance, and there are at least two of
    them when two rows differ in the key. *)
Definition reconciles_by_key (m : Model) : Prop :=
  forall (rows : list Row) (sr : list string) (cols excl : Dict),
    Forall (fun r => column (get_column_alias m (pkname m)) r <> VNone) rows ->
    let merged :=
      merge_instances_list m (map (fun row => from_row m row sr cols excl) rows) in
    (rows <> [] -> exists i, head merged = Some (Some i))
    /\ (forall r1 r2, r1 ∈ rows -> r2 ∈ rows ->
          column (get_column_alias m (pkname m)) r1
          <> column (get_column_alias m (pkname m)) r2 ->
          1 < length merged).

(** Prefetching attaches related models to the roots it is given: it hands
    back no more roots, and it is not where [MultipleMatches] comes from. *)
Definition prefetch_keeps_roots {Pf : Prefetch} : Prop :=
  forall q models rows w,
    match (prefetch_related_models q models rows w).1 with
    | Ok models' => length models' <= length models
    | Raise e => e <> MultipleMatches
    end.

(** ** Fixtures: the models of the test suite *)

Module Fixtures.

(** Mask helpers over flat names.  [update] works as [dict.update]: it sets
    the entries in the dict it is handed and returns that dict.
    [update_dict_from_list] copies the dict first and sets each name to
    [...] in the copy. *)
#[export] Instance flat_utils : utils.Utils := {|
  utils.update cur d := (fold_left (fun acc kv => dict_set kv.1 kv.2 acc) d cur, None);
  utils.update_dict_from_list cur l :=
    (cur, Some (fold_left (fun acc n => dict_set n Ellipsis acc) l cur)) |}.

(** Lower case, for the case-insensitive operators. *)
Definition lower_ascii (a : ascii) : ascii :=
  let n := nat_of_ascii a in
  if Nat.leb 65 n && Nat.leb n 90 then ascii_of_nat (n + 32) else a.

Fixpoint lower (s : string) : string :=
  match s with
  | EmptyString => EmptyString
  | String a s' => String (lower_ascii a) (lower s')
  end.

Fixpoint startswith (p s : string) : bool :=
  match p, s with
  | EmptyString, _ => true
  | String a p', String b s' => bool_decide (a = b) && startswith p' s'
  | String _ _, EmptyString => false
  end.

Fixpoint contains (p s : string) : bool :=
  startswith p s
  || match s with
     | EmptyString => false
     | String _ s' => contains p s'
     end.

Fixpoint reversed (acc s : string) : string :=
  match s with
  | EmptyString => acc
  | String a s' => reversed (String a acc) s'
  end.

Definition endswith (p s : string) : bool :=
  startswith (reversed "" p) (reversed "" s).

(** One comparison of a column with a literal. *)
Definition compare_with (op : string) (x v : value) : bool :=
  match x, v with
  | VStr a, VStr b =>
      if bool_decide (op = "exact") then bool_decide (a = b)
      else if bool_decide (op = "iexact") then bool_decide (lower a = lower b)
      else if bool_decide (op = "contains") then contains b a
      else if bool_decide (op = "icontains") then contains (lower b) (lower a)
      else if bool_decide (op = "startswith") then startswith b a
      else if bool_decide (op = "istartswith") then startswith (lower b) (lower a)
      else if bool_decide (op = "endswith") then endswith b a
      else if bool_decide (op = "iendswith") then endswith (lower b) (lower a)
      else if bool_decide (op = "gt") then bool_decide (value_compare x v = Gt)
      else if bool_decide (op = "gte") then negb (bool_decide (value_compare x v = Lt))
      else if bool_decide (op = "lt") then bool_decide (value_compare x v = Lt)
      else if bool_decide (op = "lte") then negb (bool_decide (value_compare x v = Gt))
      else false
  | VInt _, VInt _ =>
      if bool_decide (op = "exact") then bool_decide (x = v)
      else if bool_decide (op = "gt") then bool_decide (value_compare x v = Gt)
      else if bool_decide (op = "gte") then negb (bool_decide (value_compare x v = Lt))
      else if bool_decide (op = "lt") then bool_decide (value_compare x v = Lt)
      else if bool_decide (op = "lte") then negb (bool_decide (value_compare x v = Gt))
      else false
  | VNone, VNone => bool_decide (op = "exact")
  | _, _ => false
  end.

(** A clause compiler for tables of flat rows keyed by [id]: the keyword is
    a column, or [pk] for the key, with an optional operator suffix.  A
    clause across a relation needs the joined row and holds of no flat
    row; the operator [in] needs a list literal and is left out. *)
#[export] Instance flat_clauses : Clauses := fun _ r c =>
  let parts := split_dunder (clause_key c) in
  let '(op, path) :=
    match reverse parts with
    | last :: rest =>
        if bool_decide (last ∈ filter_operators) then (last, reverse rest)
        else ("exact", parts)
    | [] => ("exact", parts)
    end in
  match path with
  | [field] =>
      compare_with op (column (if bool_decide (field = "pk") then "id" else field) r)
        (clause_value c)
  | _ => false
  end.

(** Models without relations to prefetch: nothing is queried or attached. *)
#[export] Instance no_prefetch : Prefetch := fun _ models _ => ret models.

(** An [update] that sets the fields on the instance and writes nothing. *)
#[export] Instance set_fields : InstanceUpdate :=
  fun instance kw => ret (mkInstance (row_update kw (inst_dict instance)) true).

Definition instance_pk (pk : string) (i : option Instance) : value :=
  match i with
  | Some i => column pk (inst_dict i)
  | None => VNone
  end.

(** First occurrence of each primary key, in order. *)
Fixpoint merge_by_pk (pk : string) (seen : list value) (l : list (option Instance))
    : list (option Instance) :=
  match l with
  | [] => []
  | i :: l' =>
      if bool_decide (instance_pk pk i ∈ seen) then merge_by_pk pk seen l'
      else i :: merge_by_pk pk (instance_pk pk i :: seen) l'
  end.

(** A model whose fields are columns of the same name, with an integer
    primary key [id]: a row without a key gives no instance, rows of one key
    are merged into the first. *)
Definition plain_model (name table : string) (columns : list string) : Model := {|
  model_name := name;
  pkname := "id";
  tablename := table;
  table_columns := columns;
  model_fields := map (fun c => (c, None)) columns;
  requires_ref_update := false;
  extract_db_own_fields := list_to_set columns;
  extract_related_names := ∅;
  get_column_alias c := c;
  translate_columns_to_aliases kw := kw;
  substitute_models_with_pks kw := kw;
  prepare_model_to_save kw := kw;
  is_pk_type v := match v with VInt _ => true | _ => false end;
  from_row row _ _ _ :=
    match column "id" row with
    | VNone => None
    | _ => Some {| inst_dict := row; inst_saved := true |}
    end;
  merge_instances_list l := merge_by_pk "id" [] l;
  new_instance kw := Ok {| inst_dict := kw; inst_saved := false |};
  load i := ret i |}.

Definition Album : Model := plain_model "Album" "album" ["id"; "name"].

Definition Track : Model :=
  plain_model "Track" "track" ["id"; "album"; "title"; "position"].

Definition track (id album : Z) (title : string) (position : Z) : Row :=
  [("id", VInt id); ("album", VInt album); ("title", VStr title);
   ("position", VInt position)].

(** One album with three tracks, as in [test_get_exceptions]. *)
Definition test_db : gmap string (list Row) :=
  <["album" := [[("id", VInt 1); ("name", VStr "Test")]]]>
  (<["track" := [track 1 1 "Test1" 1; track 2 1 "Test2" 2; track 3 1 "Test3" 3]]> ∅).

Definition start : world := {| heap := []; database := test_db; log := [] |}.

(** [Track.objects] in the starting world. *)
Definition Track_objects : QuerySet :=
  {| model_cls := Some Track;
     filter_clauses := 0; exclude_clauses := 1;
     _select_related := 2; _prefetch_related := 3;
     limit_count := None; query_offset := None;
     _columns := 4; _exclude_columns := 5; order_bys := 6;
     limit_sql_raw := false |}.

Definition ready : world :=
  {| heap := [OClauses []; OClauses []; OStrs []; OStrs []; ODict []; ODict []; OStrs []];
     database := test_db; log := [] |}.

End Fixtures.

(** * Properties *)

(** ** Running the fixtures *)

Example Track_objects_get :
  QuerySet.__get__ Fixtures.Track Fixtures.start = (Ok Fixtures.Track_objects, Fixtures.ready).
Proof. reflexivity. Qed.

(** ** The store under the builder methods *)

Lemma extends_refl w : extends w w.
Proof. by split. Qed.

Lemma extends_trans w1 w2 w3 : extends w1 w2 -> extends w2 w3 -> extends w1 w3.
Proof.
  intros (Hh1 & Hd1 & Hl1) (Hh2 & Hd2 & Hl2).
  split; [by etrans | split; congruence].
Qed.

Lemma extends_length w w' : extends w w' -> length (heap w) <= length (heap w').
Proof. intros [H _]. by apply prefix_length. Qed.

(** An object of the first store is the same object in the second. *)
Lemma extends_lookup w w' l :
  extends w w' -> l < length (heap w) -> heap w' !! l = heap w !! l.
Proof.
  intros [Hpre _] Hl.
  destruct (lookup_lt_is_Some_2 _ _ Hl) as [o Ho].
  rewrite Ho. by eapply prefix_lookup_Some.
Qed.

Lemma extends_alloc w o : extends w (set_heap (heap w ++ [o]) w).
Proof. split; [by apply prefix_app_r | done]. Qed.

Lemma grows_ret {A} (a : A) : grows (ret a).
Proof. intros w. apply extends_refl. Qed.

Lemma grows_raise {A} e : grows (raise (A := A) e).
Proof. intros w. apply extends_refl. Qed.

(** Running a bind whose first part has run. *)
Lemma bind_ok {A B} (m : M A) (k : A -> M B) w a w1 :
  m w = (Ok a, w1) -> (x <- m ;; k x) w = k a w1.
Proof. intros E. unfold bind. by rewrite E. Qed.


Lemma grows_bind {A B} (m : M A) (k : A -> M B) :
  grows m -> (forall a, grows (k a)) -> grows (bind m k).
Proof.
  intros Hm Hk w. unfold bind. specialize (Hm w).
  destruct (m w) as [[a | e] w1]; simpl in *; [| done].
  eapply extends_trans; [exact Hm | apply Hk].
Qed.

Lemma grows_alloc o : grows (alloc o).
Proof. intros w. apply extends_alloc. Qed.

Lemma grows_get_clauses l : grows (get_clauses l).
Proof. intros w. apply extends_refl. Qed.

Lemma grows_get_strs l : grows (get_strs l).
Proof. intros w. apply extends_refl. Qed.

Lemma grows_get_dict l : grows (get_dict l).
Proof. intros w. apply extends_refl. Qed.

Lemma grows_truthy l : grows (truthy l).
Proof. intros w. apply extends_refl. Qed.

Create HintDb grows discriminated.
#[export] Hint Resolve grows_ret grows_raise grows_alloc grows_get_clauses
  grows_get_strs grows_get_dict grows_truthy : grows.

(** Splits a computation at its binds and branches and closes the leaves
    with the hints. *)
Ltac grows :=
  repeat match goal with
    | |- grows (bind _ _) => apply grows_bind; [| intros ?]
    | |- grows (if ?b then _ else _) => destruct b
    | |- grows (match ?x with _ => _ end) => destruct x
    | |- grows _ => solve [auto with grows]
    end.

Section builders.
Context {Cl : Clauses} {Ut : utils.Utils} {Pf : Prefetch}.

Lemma grows_init mc fc ec sr lc off cols excl obs pr raw :
  grows (QuerySet.__init__ mc fc ec sr lc off cols excl obs pr raw).
Proof.
  unfold QuerySet.__init__, QuerySet.new_if_none, QuerySet.or_new. grows.
Qed.

Lemma grows_model self : grows (QuerySet.model self).
Proof. unfold QuerySet.model. grows. Qed.

Hint Resolve grows_init grows_model : grows.

(** A helper that leaves the dict it is handed as it is only adds to the
    store. *)
Lemma grows_call_mask_helper l columns :
  helpers_keep -> grows (QuerySet.call_mask_helper l columns).
Proof.
  intros [Hupdate Hlist] w. unfold QuerySet.call_mask_helper, bind, get_dict.
  assert (Hkeep : (QuerySet.updated_mask (dict_at (heap w) l) columns).1
                  = dict_at (heap w) l)
    by (destruct columns; cbn; auto).
  assert (Hset : set_dict l (dict_at (heap w) l) w = (Ok tt, w)).
  { unfold set_dict, dict_at. destruct (heap w !! l) as [[| |d]|] eqn:Hl; try done.
    rewrite list_insert_id by done. by destruct w. }
  rewrite Hkeep, Hset.
  destruct (QuerySet.updated_mask _ _).2; [apply extends_alloc | apply extends_refl].
Qed.

(** Every builder call but [fields] and [exclude_fields] only adds objects
    to the store: it changes no object that exists, and touches neither the
    database nor the log.  So do these two with helpers that leave the dict
    they are handed as it is. *)
Lemma grows_call self c :
  mask_call c = false \/ helpers_keep -> grows (call self c).
Proof.
  intros Hc.
  destruct c; cbn [call];
    unfold QuerySet.exclude, QuerySet.filter, QuerySet.select_related,
      QuerySet.prefetch_related, QuerySet.fields, QuerySet.exclude_fields,
      QuerySet.order_by, QuerySet.limit, QuerySet.offset;
    cbv zeta; try (by grows).
  all: destruct Hc as [Hc|Hkeep]; [discriminate|].
  all: apply grows_bind; [by apply grows_call_mask_helper | intros ?; grows].
Qed.

Lemma grows_chain cs : forall self,
  Forall (fun c => mask_call c = false) cs \/ helpers_keep -> grows (chain self cs).
Proof.
  induction cs as [| c cs IH]; intros self Hcs; cbn [chain].
  - apply grows_ret.
  - apply grows_bind.
    + apply grows_call. destruct Hcs as [Hcs|Hkeep]; [left|by right].
      by inversion Hcs.
    + intros qs. apply IH. destruct Hcs as [Hcs|Hkeep]; [left|by right].
      by inversion Hcs.
Qed.

(** What is observed of a descriptor whose containers exist does not depend
    on objects added later. *)
Lemma observe_extends w w' qs :
  extends w w' -> allocated w qs -> observe w' qs = observe w qs.
Proof.
  intros Hext Hal. unfold observe, clauses_at, strs_at, dict_at.
  rewrite !(extends_lookup w w') by (first [exact Hext | apply (Hal Filter_clauses)
    | apply (Hal Exclude_clauses) | apply (Hal Select_related_list)
    | apply (Hal Prefetch_related_list) | apply (Hal Columns)
    | apply (Hal Exclude_columns) | apply (Hal Order_bys)]).
  reflexivity.
Qed.

(** *** Builders that hand a mask to a helper *)

Lemma keeps_but_refl masks w : keeps_but masks w w.
Proof. split_and!; auto. Qed.

Lemma extends_keeps_but masks w w' : extends w w' -> keeps_but masks w w'.
Proof.
  intros Hext. pose proof (extends_length _ _ Hext).
  pose proof (fun l => extends_lookup w w' l Hext) as Hlook.
  destruct Hext as (Hpre & Hdb & Hlog). split_and!; auto.
Qed.

Lemma keeps_but_trans masks w0 w1 w2 :
  keeps_but masks w0 w1 -> keeps_but masks w1 w2 -> keeps_but masks w0 w2.
Proof.
  intros (L1 & K1 & D1 & G1) (L2 & K2 & D2 & G2).
  split_and!; [lia | | congruence | congruence].
  intros l Hl.
  destruct (K1 l Hl) as [E1 | (Hin & d & d1 & Hd & Hd1)];
    destruct (K2 l ltac:(lia)) as [E2 | (Hin' & d' & d2 & Hd' & Hd2)].
  - left. congruence.
  - right. split; [done|]. exists d', d2. split; congruence.
  - right. split; [done|]. exists d, d1. split; congruence.
  - right. split; [done|]. exists d, d2. split; congruence.
Qed.

(** A second step may change other masks, as long as they are new. *)
Lemma keeps_but_step masks masks' w0 w1 w2 :
  keeps_but masks w0 w1 -> keeps_but masks' w1 w2 ->
  (forall l, l ∈ masks' -> l < length (heap w0) -> l ∈ masks) ->
  keeps_but masks w0 w2.
Proof.
  intros (L1 & K1 & D1 & G1) (L2 & K2 & D2 & G2) Hsub.
  split_and!; [lia | | congruence | congruence].
  intros l Hl.
  destruct (K1 l Hl) as [E1 | (Hin & d & d1 & Hd & Hd1)];
    destruct (K2 l ltac:(lia)) as [E2 | (Hin' & d' & d2 & Hd' & Hd2)].
  - left. congruence.
  - right. split; [by apply Hsub|]. exists d', d2. split; congruence.
  - right. split; [done|]. exists d, d1. split; congruence.
  - right. split; [done|]. exists d, d2. split; congruence.
Qed.

(** Only the masks that lie in the first store matter. *)
Lemma keeps_but_old masks masks' w w' :
  (forall l, l ∈ masks -> l < length (heap w) -> l ∈ masks') ->
  keeps_but masks w w' -> keeps_but masks' w w'.
Proof.
  intros Hsub (L & K & D & G). split_and!; auto.
  intros l Hl. destruct (K l Hl) as [E | (Hin & Hd)]; [by left | right].
  split; [by apply Hsub | exact Hd].
Qed.

Lemma set_dict_keeps l d w : keeps_but [l] w (set_dict l d w).2.
Proof.
  unfold set_dict. destruct (heap w !! l) as [[| |d0]|] eqn:Hl; cbn;
    try apply keeps_but_refl.
  split_and!; cbn; [by rewrite length_insert | | done | done].
  intros l' Hl'. destruct (decide (l' = l)) as [->|Hne].
  - right. split; [apply list_elem_of_here|]. exists d0, d.
    split; [done|]. by rewrite list_lookup_insert_eq by done.
  - left. by rewrite list_lookup_insert_ne.
Qed.

(** The helper is handed one dict: it returns, has changed at most that
    dict, and the reference that comes back is the same one or a new
    object. *)
Lemma call_mask_helper_keeps l columns w :
  exists l' w',
    QuerySet.call_mask_helper l columns w = (Ok l', w')
    /\ keeps_but [l] w w'
    /\ (l' = l \/ length (heap w) <= l')
    /\ (l < length (heap w) -> l' < length (heap w')).
Proof.
  unfold QuerySet.call_mask_helper, bind, get_dict.
  pose proof (set_dict_keeps l (QuerySet.updated_mask (dict_at (heap w) l) columns).1 w)
    as Hset.
  assert (Hok : (set_dict l (QuerySet.updated_mask (dict_at (heap w) l) columns).1 w).1
                = Ok tt)
    by (unfold set_dict; by destruct (heap w !! l) as [[| |?]|]).
  destruct (set_dict l _ w) as [r w1]. cbn in Hok, Hset. subst r.
  destruct (QuerySet.updated_mask _ _).2 as [d|].
  - eexists _, _. split; [reflexivity|]. split_and!.
    + eapply keeps_but_trans; [exact Hset|].
      apply extends_keeps_but, extends_alloc.
    + right. cbn. by destruct Hset.
    + intros _. cbn. rewrite length_app. cbn. lia.
  - eexists _, _. split; [reflexivity|]. split_and!; [exact Hset | by left |].
    intros Hl. destruct Hset as (Hlen & _). lia.
Qed.

(** [__init__] as the builders call it returns; its masks are the ones given
    or new objects. *)
Lemma init_masks mc fc ec sr lc off cols excl obs pr raw w :
  exists qs w',
    QuerySet.__init__ mc (Some fc) (Some ec) (Some sr) lc off
      (Some cols) (Some excl) (Some obs) (Some pr) raw w = (Ok qs, w')
    /\ extends w w'
    /\ (_columns qs = cols \/ length (heap w) <= _columns qs)
    /\ (_exclude_columns qs = excl \/ length (heap w) <= _exclude_columns qs).
Proof.
  pose proof (grows_init mc (Some fc) (Some ec) (Some sr) lc off
                (Some cols) (Some excl) (Some obs) (Some pr) raw w) as Hext.
  unfold QuerySet.__init__, QuerySet.new_if_none, QuerySet.or_new, bind, ret,
    truthy, alloc in *.
  destruct (match heap w !! cols with Some o => obj_truthy o | None => false end);
    cbn in *.
  - destruct (match heap w !! excl with Some o => obj_truthy o | None => false end);
      cbn in *.
    + destruct (match heap w !! obs with Some o => obj_truthy o | None => false end);
        cbn in *; eexists _, _; (split; [reflexivity|]); cbn; auto.
    + destruct (match (heap w ++ _) !! obs with Some o => obj_truthy o | None => false end);
        cbn in *; eexists _, _; (split; [reflexivity|]); cbn; auto.
  - destruct (match (heap w ++ _) !! excl with Some o => obj_truthy o | None => false end);
      cbn in *.
    + destruct (match (heap w ++ _) !! obs with Some o => obj_truthy o | None => false end);
        cbn in *; eexists _, _; (split; [reflexivity|]); cbn; auto.
    + destruct (match ((heap w ++ _) ++ _) !! obs
                with Some o => obj_truthy o | None => false end);
        cbn in *; eexists _, _; (split; [reflexivity|]); cbn;
        rewrite ?length_app; cbn; split_and!; auto; right; lia.
Qed.

End builders.

(** ** What [__init__] and the builders return *)

Lemma reads_extends w w' l :
  extends w w' -> l < length (heap w) -> reads (heap w') l = reads (heap w) l.
Proof.
  intros Hext Hl. unfold reads, clauses_at, strs_at, dict_at.
  by rewrite (extends_lookup w w').
Qed.

Lemma reads_new h o : reads (h ++ [o]) (length h) = reads [o] 0.
Proof.
  unfold reads, clauses_at, strs_at, dict_at.
  by rewrite list_lookup_middle.
Qed.

Lemma reads_falsy h l :
  match h !! l with Some o => obj_truthy o | None => false end = false ->
  reads h l = ([], [], []).
Proof.
  unfold reads, clauses_at, strs_at, dict_at.
  destruct (h !! l) as [[[|] | [|] | [|]] |]; simpl; congruence.
Qed.

Lemma lookup_new (h : list obj) o : (h ++ [o]) !! length h = Some o.
Proof. by rewrite list_lookup_middle. Qed.

Lemma lookup_old (h : list obj) o l : l < length h -> (h ++ [o]) !! l = h !! l.
Proof. intros. by rewrite lookup_app_l. Qed.

(** Reads of a store that has grown by [alloc]. *)
Ltac heap_reads :=
  unfold clauses_at, strs_at, dict_at;
  repeat first
    [ rewrite lookup_new
    | rewrite lookup_old by (rewrite ?length_app; cbn; lia) ].

Section builders_spec.
Context {Cl : Clauses} {Ut : utils.Utils} {Pf : Prefetch}.

(** [x or empty]: the result is the object given or a new one, it exists,
    and it reads as the object given did. *)
Lemma or_new_spec l empty w :
  obj_truthy empty = false -> l < length (heap w) ->
  exists l' w',
    QuerySet.or_new (Some l) empty w = (Ok l', w')
    /\ extends w w'
    /\ l' < length (heap w')
    /\ (l' = l \/ length (heap w) <= l')
    /\ reads (heap w') l' = reads (heap w) l.
Proof.
  intros Hempty Hl. unfold QuerySet.or_new, bind, truthy, ret, alloc.
  destruct (match heap w !! l with Some o => obj_truthy o | None => false end) eqn:Ht.
  - exists l, w. split_and!; auto using extends_refl.
  - eexists _, _. split_and!; [reflexivity | apply extends_alloc | | by right |].
    + cbn. rewrite length_app. cbn. lia.
    + cbn. rewrite reads_new, (reads_falsy _ _ Ht).
      unfold reads, clauses_at, strs_at, dict_at. cbn.
      by destruct empty as [[|] | [|] | [|]].
Qed.

(** [__init__] as the builders call it, with every container given. *)
Lemma init_spec mc fc ec sr lc off cols excl obs pr raw w :
  allocated w (mkQuerySet mc fc ec sr pr lc off cols excl obs raw) ->
  exists qs w',
    QuerySet.__init__ mc (Some fc) (Some ec) (Some sr) lc off
      (Some cols) (Some excl) (Some obs) (Some pr) raw w = (Ok qs, w')
    /\ extends w w'
    /\ allocated w' qs
    /\ model_cls qs = mc
    /\ (forall k, if defaulted k
                  then container_loc k qs
                       = container_loc k (mkQuerySet mc fc ec sr pr lc off cols excl obs raw)
                       \/ length (heap w) <= container_loc k qs
                  else container_loc k qs
                       = container_loc k (mkQuerySet mc fc ec sr pr lc off cols excl obs raw))
    /\ observe w' qs = observe w (mkQuerySet mc fc ec sr pr lc off cols excl obs raw).
Proof.
  intros Hal.
  pose proof (Hal Filter_clauses) as Hfc. pose proof (Hal Exclude_clauses) as Hec.
  pose proof (Hal Select_related_list) as Hsr. pose proof (Hal Prefetch_related_list) as Hpr.
  pose proof (Hal Columns) as Hcols. pose proof (Hal Exclude_columns) as Hexcl.
  pose proof (Hal Order_bys) as Hobs. cbn in Hfc, Hec, Hsr, Hpr, Hcols, Hexcl, Hobs.
  destruct (or_new_spec cols (ODict []) w eq_refl Hcols)
    as (c1 & w1 & E1 & X1 & A1 & K1 & R1).
  pose proof (extends_length _ _ X1) as L1.
  destruct (or_new_spec excl (ODict []) w1 eq_refl ltac:(lia))
    as (c2 & w2 & E2 & X2 & A2 & K2 & R2).
  pose proof (extends_length _ _ X2) as L2.
  destruct (or_new_spec obs (OStrs []) w2 eq_refl ltac:(lia))
    as (c3 & w3 & E3 & X3 & A3 & K3 & R3).
  pose proof (extends_length _ _ X3) as L3.
  exists (mkQuerySet mc fc ec sr pr lc off c1 c2 c3 raw), w3.
  assert (X13 : extends w1 w3) by eauto using extends_trans.
  assert (X03 : extends w w3) by eauto using extends_trans.
  assert (X02 : extends w w2) by eauto using extends_trans.
  split_and!.
  - unfold QuerySet.__init__, QuerySet.new_if_none, bind at 1 2 3 4, ret at 1 2 3 4.
    unfold bind at 1. rewrite E1. unfold bind at 1. rewrite E2.
    unfold bind at 1. rewrite E3. reflexivity.
  - exact X03.
  - intros []; cbn; lia.
  - reflexivity.
  - intros []; cbn; auto; destruct K1, K2, K3; auto; right; lia.
  - pose proof (reads_extends _ _ fc X03 Hfc) as Qfc.
    pose proof (reads_extends _ _ ec X03 Hec) as Qec.
    pose proof (reads_extends _ _ sr X03 Hsr) as Qsr.
    pose proof (reads_extends _ _ pr X03 Hpr) as Qpr.
    pose proof (reads_extends _ _ c1 X13 A1) as Q1.
    pose proof (reads_extends _ _ c2 X3 A2) as Q2.
    pose proof (reads_extends _ _ excl X1 Hexcl) as Q2'.
    pose proof (reads_extends _ _ obs X02 Hobs) as Q3'.
    unfold reads in *. unfold observe; cbn. f_equal; congruence.
Qed.

(** Runs the body of a builder up to its call of [__init__], and takes the
    result of that call from [init_spec]. *)
Ltac run_builder Hm Hal :=
  rewrite Hm;
  unfold bind, get_strs, get_clauses, get_dict, alloc, ret;
  cbn -[QuerySet.__init__ prepare_filter QuerySet.updated_mask];
  match goal with
  | |- context [QuerySet.__init__ ?mc (Some ?fc) (Some ?ec) (Some ?sr) ?lc ?off
                  (Some ?cols) (Some ?excl) (Some ?obs) (Some ?pr) ?raw ?w2] =>
      let Hal2 := fresh "Hal2" in
      assert (Hal2 : allocated w2 (mkQuerySet mc fc ec sr pr lc off cols excl obs raw))
        by (intros k; pose proof (Hal k); destruct k; cbn in *;
            rewrite ?length_app; cbn; lia);
      destruct (init_spec mc fc ec sr lc off cols excl obs pr raw w2 Hal2)
        as (qs & w' & Hrun & Hext & Hal' & Hmc & Hk & Hobs);
      exists qs, w'; rewrite Hrun
  end.

(** A builder call on a bound descriptor that hands no mask to a helper
    returns; its result is made of new objects where the call rebuilds a
    container and of the objects of [self] elsewhere, and holds the values of
    [after_call]. *)
Lemma call_spec self c w m :
  mask_call c = false -> model_cls self = Some m -> allocated w self ->
  exists qs w',
    call self c w = (Ok qs, w')
    /\ extends w w'
    /\ allocated w' qs
    /\ model_cls qs = Some m
    /\ (forall k,
          if rebuilds c k then length (heap w) <= container_loc k qs
          else if defaulted k
               then container_loc k qs = container_loc k self
                    \/ length (heap w) <= container_loc k qs
               else container_loc k qs = container_loc k self)
    /\ observe w' qs = after_call m (observe w self) c.
Proof.
  intros Hc Hm Hal.
  pose proof (Hal Filter_clauses) as Hfc. pose proof (Hal Exclude_clauses) as Hec.
  pose proof (Hal Select_related_list) as Hsr.
  pose proof (Hal Prefetch_related_list) as Hpr.
  pose proof (Hal Columns) as Hcols. pose proof (Hal Exclude_columns) as Hexcl.
  pose proof (Hal Order_bys) as Hord. cbn in Hfc, Hec, Hsr, Hpr, Hcols, Hexcl, Hord.
  destruct c; try discriminate Hc; unfold call, QuerySet.exclude, QuerySet.filter, QuerySet.select_related,
    QuerySet.prefetch_related, QuerySet.fields, QuerySet.exclude_fields,
    QuerySet.order_by, QuerySet.limit, QuerySet.offset, QuerySet.model;
    run_builder Hm Hal.
  all: split_and!; [ reflexivity | | exact Hal' | exact Hmc | | ].
  all: try (eapply extends_trans; [| exact Hext];
            split_and!; cbn; try reflexivity;
            repeat apply prefix_app_r; reflexivity).
  all: try (intros k; specialize (Hk k); destruct k; cbn in *;
            rewrite ?length_app in *; cbn in *; lia).
  all: rewrite Hobs; unfold after_call, observe, add_order;
       cbn -[prepare_filter QuerySet.updated_mask]; f_equal; heap_reads; reflexivity.
Qed.

(** The same for a chain of calls. *)
Lemma chain_spec cs : forall self w m,
  Forall (fun c => mask_call c = false) cs ->
  model_cls self = Some m -> allocated w self ->
  exists qs w',
    chain self cs w = (Ok qs, w')
    /\ extends w w'
    /\ allocated w' qs
    /\ model_cls qs = Some m
    /\ observe w' qs = fold_left (after_call m) cs (observe w self).
Proof.
  induction cs as [|c cs IH]; intros self w m Hcs Hm Hal.
  - exists self, w. split_and!; auto using extends_refl.
  - inversion Hcs as [|? ? Hc Hrest]; subst.
    destruct (call_spec self c w m Hc Hm Hal) as (q1 & w1 & E1 & X1 & A1 & M1 & _ & O1).
    destruct (IH q1 w1 m Hrest M1 A1) as (qs & w' & E & X & A & Mq & O).
    exists qs, w'. split_and!; auto.
    + cbn. unfold bind. by rewrite E1.
    + eauto using extends_trans.
    + by rewrite O, O1.
Qed.


(** Takes the result of the call of [__init__] in the goal from
    [init_masks]. *)
Ltac run_init :=
  match goal with
  | |- context [QuerySet.__init__ ?mc (Some ?fc) (Some ?ec) (Some ?sr) ?lc ?off
                  (Some ?cols) (Some ?excl) (Some ?obs) (Some ?pr) ?raw ?w2] =>
      let qs := fresh "qs" in let w' := fresh "w'" in
      let E := fresh "E" in let X := fresh "X" in
      let K1 := fresh "K" in let K2 := fresh "K" in
      destruct (init_masks mc fc ec sr lc off cols excl obs pr raw w2)
        as (qs & w' & E & X & K1 & K2);
      pose proof (extends_length _ _ X);
      rewrite E
  end.

(** Any builder call, on any descriptor and whatever it returns: of the
    objects of the store, at most the two masks of [self] have changed, and
    they are still dicts; the masks of the result are those of [self] or new
    objects. *)
Lemma call_keeps self c w :
  keeps_but [_columns self; _exclude_columns self] w (call self c w).2
  /\ match (call self c w).1 with
     | Ok qs =>
         (_columns qs = _columns self \/ length (heap w) <= _columns qs)
         /\ (_exclude_columns qs = _exclude_columns self
             \/ length (heap w) <= _exclude_columns qs)
     | Raise _ => True
     end.
Proof.
  destruct (mask_call c) eqn:Hc.
  - destruct c; try discriminate Hc; cbn [call];
      unfold QuerySet.fields, QuerySet.exclude_fields, QuerySet.model.
    + destruct (call_mask_helper_keeps (_columns self) columns w)
        as (l' & w1 & E1 & K1 & L1 & _).
      pose proof K1 as (Hlen & _).
      assert (K : keeps_but [_columns self; _exclude_columns self] w w1).
      { eapply keeps_but_old; [|exact K1]. intros l Hin _.
        apply list_elem_of_singleton in Hin as ->. apply list_elem_of_here. }
      rewrite (bind_ok _ _ _ _ _ E1). destruct (model_cls self) as [m|]; [|by split].
      rewrite (bind_ok _ _ _ m w1 eq_refl). run_init. cbn. split.
      * eapply keeps_but_trans; [exact K | by apply extends_keeps_but].
      * split; [destruct K0 as [->|?]; [destruct L1 as [->|?]; [by left|right; lia]
                                        | right; lia]
               | destruct K2 as [->|?]; [by left | right; lia]].
    + destruct (call_mask_helper_keeps (_exclude_columns self) columns w)
        as (l' & w1 & E1 & K1 & L1 & _).
      pose proof K1 as (Hlen & _).
      assert (K : keeps_but [_columns self; _exclude_columns self] w w1).
      { eapply keeps_but_old; [|exact K1]. intros l Hin _.
        apply list_elem_of_singleton in Hin as ->.
        apply list_elem_of_further, list_elem_of_here. }
      rewrite (bind_ok _ _ _ _ _ E1). destruct (model_cls self) as [m|]; [|by split].
      rewrite (bind_ok _ _ _ m w1 eq_refl). run_init. cbn. split.
      * eapply keeps_but_trans; [exact K | by apply extends_keeps_but].
      * split; [destruct K0 as [->|?]; [by left | right; lia]
               | destruct K2 as [->|?]; [destruct L1 as [->|?]; [by left|right; lia]
                                         | right; lia]].
  - split; [apply extends_keeps_but, grows_call; by left|].
    destruct c; try discriminate Hc; cbn [call];
      unfold QuerySet.exclude, QuerySet.filter, QuerySet.select_related,
        QuerySet.prefetch_related, QuerySet.order_by, QuerySet.limit, QuerySet.offset,
        QuerySet.model;
      (destruct (model_cls self) as [m|]; [|done]);
      unfold bind, get_strs, get_clauses, alloc, ret;
      cbn -[QuerySet.__init__ prepare_filter];
      run_init; cbn in *; rewrite ?length_app in *; cbn in *;
      (split; [destruct K as [->|?]; [by left | right; lia]
              | destruct K0 as [->|?]; [by left | right; lia]]).
Qed.

(** The same for a chain of calls: whatever happens to masks made on the
    way, of the objects the chain started with only the two masks of [self]
    can have changed. *)
Lemma chain_keeps cs : forall self w,
  keeps_but [_columns self; _exclude_columns self] w (chain self cs w).2.
Proof.
  induction cs as [|c cs IH]; intros self w; cbn [chain].
  - apply keeps_but_refl.
  - destruct (call_keeps self c w) as [K R]. unfold bind.
    destruct (call self c w) as [[q1|e] w1]; cbn in *; [|exact K].
    eapply keeps_but_step; [exact K | apply IH |].
    intros l Hin Hl. destruct R as [R1 R2].
    rewrite !elem_of_cons in Hin. rewrite !elem_of_cons.
    destruct Hin as [->|[->|Hin]]; [| |by apply elem_of_nil in Hin].
    + destruct R1 as [->|?]; [by left | lia].
    + destruct R2 as [->|?]; [right; by left | lia].
Qed.

(** What a descriptor keeps when only masks have changed. *)
Lemma observe_keeps masks w w' q :
  keeps_but masks w w' -> allocated w q ->
  without_masks (observe w' q) = without_masks (observe w q)
  /\ (_columns q ∉ masks ->
      obs_columns (observe w' q) = obs_columns (observe w q))
  /\ (_exclude_columns q ∉ masks ->
      obs_exclude_columns (observe w' q) = obs_exclude_columns (observe w q)).
Proof.
  intros (Hlen & K & _ & _) Hal.
  assert (Hc : forall l, l < length (heap w) ->
             clauses_at (heap w') l = clauses_at (heap w) l
             /\ strs_at (heap w') l = strs_at (heap w) l).
  { intros l Hl. unfold clauses_at, strs_at.
    by destruct (K l Hl) as [->|(_ & d & d' & -> & ->)]. }
  assert (Hd : forall l, l < length (heap w) -> l ∉ masks ->
             dict_at (heap w') l = dict_at (heap w) l).
  { intros l Hl Hnot. unfold dict_at.
    by destruct (K l Hl) as [->|(Hin & _)]. }
  split_and!.
  - unfold observe, without_masks.
    destruct (Hc _ (Hal Filter_clauses)) as [E1 _].
    destruct (Hc _ (Hal Exclude_clauses)) as [E2 _].
    destruct (Hc _ (Hal Select_related_list)) as [_ E3].
    destruct (Hc _ (Hal Prefetch_related_list)) as [_ E4].
    destruct (Hc _ (Hal Order_bys)) as [_ E5].
    cbn in E1, E2, E3, E4, E5. by rewrite E1, E2, E3, E4, E5.
  - intros Hnot. exact (Hd _ (Hal Columns) Hnot).
  - intros Hnot. exact (Hd _ (Hal Exclude_columns) Hnot).
Qed.

End builders_spec.

(** ** The builders and the descriptor they are called on *)

(** The values of the order list under [after_call]. *)
Lemma after_order_by {Ut : utils.Utils} m calls : forall o,
  obs_order_bys (fold_left (after_call m) (map Order_by calls) o)
  = fold_left add_order calls (obs_order_bys o).
Proof.
  induction calls as [|c calls IH]; intros o; [reflexivity|].
  cbn [map fold_left]. rewrite IH. by destruct o.
Qed.

Lemma add_order_present cur c :
  Forall (fun x => x ∈ cur) (as_list c) -> add_order cur c = cur.
Proof.
  intros Hall. unfold add_order.
  replace (List.filter _ (as_list c)) with (@nil string); [by rewrite app_nil_r|].
  induction Hall as [|x l Hx _ IH]; [reflexivity|].
  cbn. by rewrite bool_decide_eq_true_2.
Qed.

Lemma add_order_nil c : add_order [] c = as_list c.
Proof.
  unfold add_order. cbn. induction (as_list c) as [|x l IH]; [reflexivity|].
  cbn. rewrite bool_decide_eq_false_2 by apply not_elem_of_nil. cbn. by f_equal.
Qed.

Lemma elem_of_add_order cur c x :
  x ∈ add_order cur c <-> x ∈ cur \/ x ∈ as_list c.
Proof.
  unfold add_order. rewrite elem_of_app, !list_elem_of_In, filter_In, <- !list_elem_of_In.
  rewrite negb_true_iff, bool_decide_eq_false.
  destruct (decide (x ∈ cur)); tauto.
Qed.

Lemma append_unseen_app b : forall cur a,
  append_unseen cur (a ++ b) = append_unseen (append_unseen cur a) b.
Proof.
  intros cur a. revert cur.
  induction a as [|x a IH]; intros cur; [reflexivity|].
  cbn. destruct (bool_decide (x ∈ cur)); apply IH.
Qed.

(** One call whose paths differ from each other appends them one by one. *)
Lemma add_order_nodup c : forall cur,
  NoDup (as_list c) -> add_order cur c = append_unseen cur (as_list c).
Proof.
  unfold add_order. induction (as_list c) as [|x l IH]; intros cur Hnd.
  - cbn. by rewrite app_nil_r.
  - apply NoDup_cons in Hnd as [Hx Hnd]. cbn.
    destruct (decide (x ∈ cur)) as [Hin|Hnot].
    + rewrite (bool_decide_eq_true_2 _ Hin). cbn. by apply IH.
    + rewrite (bool_decide_eq_false_2 _ Hnot). cbn.
      rewrite <- (IH (cur ++ [x]) Hnd), <- app_assoc. cbn. do 2 f_equal.
      apply filter_ext_in. intros y Hy. apply list_elem_of_In in Hy.
      f_equal. apply bool_decide_ext. rewrite elem_of_app, list_elem_of_singleton.
      split; [by left | intros [?| ->]; [done | by destruct Hx]].
Qed.

Lemma fold_add_order_nodup calls : forall cur,
  Forall (fun c => NoDup (as_list c)) calls ->
  fold_left add_order calls cur = append_unseen cur (concat (map as_list calls)).
Proof.
  induction calls as [|c calls IH]; intros cur Hall; [reflexivity|].
  inversion Hall as [|? ? Hc Hrest]; subst. cbn [fold_left map concat].
  rewrite append_unseen_app, <- (add_order_nodup c cur Hc). by apply IH.
Qed.

Section builders_claims.
Context {Cl : Clauses} {Ut : utils.Utils} {Pf : Prefetch}.

(** C3, as amended.  After each call of a chain of builder calls ([filter],
    [exclude], [select_related], [prefetch_related], [fields],
    [exclude_fields], [order_by], [limit], [offset]) on a descriptor [self],
    the database and the log are as before, and every descriptor [q] that
    existed before the chain, [self] among them, reads the same filter
    clauses, exclude clauses, relation lists, order list, limit and offset
    as before.  When the chain has no [fields] and no [exclude_fields] call,
    or when the mask helpers leave the dict they are handed as it is, the
    store has only grown and [q] reads the same masks too. *)
Theorem builders_leave_original_unchanged (self q : QuerySet)
    (cs : list builder_call) (w : world) (n : nat) :
  allocated w q ->
  database (chain self (take n cs) w).2 = database w
  /\ log (chain self (take n cs) w).2 = log w
  /\ without_masks (observe (chain self (take n cs) w).2 q)
     = without_masks (observe w q)
  /\ (Forall (fun c => mask_call c = false) (take n cs) \/ helpers_keep ->
      extends w (chain self (take n cs) w).2
      /\ observe (chain self (take n cs) w).2 q = observe w q).
Proof.
  intros Hq. pose proof (chain_keeps (take n cs) self w) as K.
  destruct (observe_keeps _ _ _ q K Hq) as (H1 & _).
  destruct K as (_ & _ & Hdb & Hlog).
  split_and!; auto.
  intros Hcs. pose proof (grows_chain (take n cs) self Hcs w) as Hext.
  split; [exact Hext | by apply observe_extends].
Qed.

(** C7, as amended.  A sequence of [order_by] calls on a bound descriptor
    returns, and the order list of the result is the list of the descriptor
    with, call after call, those arguments of the call added at the end, in
    the order given, that are not in the list the call starts from; an
    argument given twice in one call is added twice.  When no call repeats
    an argument, this is the list with the paths of all calls appended one
    by one, a path already present being skipped.  When every argument is
    already in the list, the list comes back as it was. *)
Theorem order_by_appends_unseen (self : QuerySet) (calls : list str_or_list)
    (w : world) (m : Model) :
  model_cls self = Some m -> allocated w self ->
  exists qs w',
    chain self (map Order_by calls) w = (Ok qs, w')
    /\ strs_at (heap w') (order_bys qs)
       = fold_left add_order calls (strs_at (heap w) (order_bys self))
    /\ (Forall (fun c => NoDup (as_list c)) calls ->
        strs_at (heap w') (order_bys qs)
        = append_unseen (strs_at (heap w) (order_bys self))
            (concat (map as_list calls)))
    /\ (Forall (fun c => Forall (fun x => x ∈ strs_at (heap w) (order_bys self))
                           (as_list c)) calls ->
        strs_at (heap w') (order_bys qs) = strs_at (heap w) (order_bys self)).
Proof.
  intros Hm Hal.
  assert (Hcs : Forall (fun c => mask_call c = false) (map Order_by calls))
    by (apply Forall_map, Forall_forall; by intros x _).
  destruct (chain_spec (map Order_by calls) self w m Hcs Hm Hal)
    as (qs & w' & Hrun & _ & _ & _ & Hobs).
  exists qs, w'. split; [exact Hrun|].
  assert (Hfold : strs_at (heap w') (order_bys qs)
                  = fold_left add_order calls (strs_at (heap w) (order_bys self))).
  { change (obs_order_bys (observe w' qs)
            = fold_left add_order calls (obs_order_bys (observe w self))).
    by rewrite Hobs, after_order_by. }
  split; [exact Hfold|]. rewrite Hfold. split.
  - apply fold_add_order_nodup.
  - clear. generalize (strs_at (heap w) (order_bys self)) as cur.
    induction calls as [|c calls IH]; intros cur Hall; [reflexivity|].
    inversion Hall as [|? ? Hc Hrest]; subst. cbn.
    rewrite (add_order_present cur c Hc). by apply IH.
Qed.


End builders_claims.


(** C3, as stated, fails: [Track.objects.fields({"title": ...})] hands the
    mask of [Track.objects] to [update], which sets the entry in that very
    dict; afterwards [Track.objects] itself reads the mask with [title] in
    it, and the child holds the same dict. *)
Lemma fields_changes_mask_of_original :
  exists child w',
    QuerySet.fields (Ut := Fixtures.flat_utils) Fixtures.Track_objects
      (ColDict [("title", Ellipsis)]) Fixtures.ready = (Ok child, w')
    /\ _columns child = _columns Fixtures.Track_objects
    /\ obs_columns (observe Fixtures.ready Fixtures.Track_objects) = []
    /\ obs_columns (observe w' Fixtures.Track_objects) = [("title", Ellipsis)]
    /\ observe w' Fixtures.Track_objects <> observe Fixtures.ready Fixtures.Track_objects.
Proof.
  eexists _, _. split_and!; [reflexivity | reflexivity | reflexivity | reflexivity |].
  intros Heq. apply (f_equal obs_columns) in Heq. discriminate Heq.
Qed.

(** C7, as stated, fails: after [order_by("x")], [order_by(["a", "a"])]
    appends [a] twice, although the second [a] is present by then. *)
Lemma order_by_repeats_path_of_one_call :
  exists qs w',
    chain (Ut := Fixtures.flat_utils) Fixtures.Track_objects
      [Order_by (Str "x"); Order_by (Lst ["a"; "a"])] Fixtures.ready = (Ok qs, w')
    /\ strs_at (heap w') (order_bys qs) = ["x"; "a"; "a"]
    /\ append_unseen [] ["x"; "a"; "a"] = ["x"; "a"].
Proof. eexists _, _. split_and!; reflexivity. Qed.

Lemma Track_objects_allocated : allocated Fixtures.ready Fixtures.Track_objects.
Proof. intros []; cbn; lia. Defined.

Lemma builders_leave_original_unchanged_witness :
  database
    (chain (Ut := Fixtures.flat_utils) Fixtures.Track_objects
       (take 2 [Fields (ColDict [("title", Ellipsis)]); Order_by (Str "-position")])
       Fixtures.ready).2
  = database Fixtures.ready
  /\ without_masks
       (observe
          (chain (Ut := Fixtures.flat_utils) Fixtures.Track_objects
             (take 2 [Fields (ColDict [("title", Ellipsis)]); Order_by (Str "-position")])
             Fixtures.ready).2
          Fixtures.Track_objects)
     = without_masks (observe Fixtures.ready Fixtures.Track_objects).
Proof.
  pose proof (builders_leave_original_unchanged (Ut := Fixtures.flat_utils)
                Fixtures.Track_objects Fixtures.Track_objects
                [Fields (ColDict [("title", Ellipsis)]); Order_by (Str "-position")]
                Fixtures.ready 2 ltac:(intros []; cbn; lia)) as (H1 & _ & H2 & _).
  exact (conj H1 H2).
Defined.

Lemma order_by_appends_unseen_witness :
  exists qs w',
    chain (Ut := Fixtures.flat_utils) Fixtures.Track_objects
      (map Order_by [Str "title"; Lst ["-position"; "title"]]) Fixtures.ready
    = (Ok qs, w')
    /\ strs_at (heap w') (order_bys qs) = ["title"; "-position"].
Proof.
  destruct (order_by_appends_unseen (Ut := Fixtures.flat_utils)
              Fixtures.Track_objects [Str "title"; Lst ["-position"; "title"]]
              Fixtures.ready Fixtures.Track eq_refl ltac:(intros []; cbn; lia))
    as (qs & w' & Hrun & _ & Happ & _).
  exists qs, w'. split; [exact Hrun|].
  rewrite Happ; [reflexivity|].
  refine (bool_decide_unpack _ _). by vm_compute.
Defined.


(** ** Compiled expressions *)

Lemma forallb_holds_clauses ev cs :
  forallb (holds ev) (map BClause cs) = forallb ev cs.
Proof. induction cs as [|c cs IH]; [reflexivity|]. cbn. by rewrite IH. Qed.

(** The condition [Query] compiles from the two clause lists: the filter
    clauses hold and the exclude clauses do not all hold. *)
Lemma where_holds ev fcs ecs :
  forallb (holds ev) (FilterQuery_apply ecs true (FilterQuery_apply fcs false []))
  = forallb ev fcs && negb (bool_decide (ecs <> []) && forallb ev ecs).
Proof.
  destruct fcs as [|f fcs], ecs as [|e ecs]; cbn -[forallb map];
    rewrite ?forallb_app; cbn -[map]; rewrite ?forallb_holds_clauses; cbn;
    rewrite ?andb_true_r; reflexivity.
Qed.

Section expressions.
Context {Cl : Clauses} {Ut : utils.Utils} {Pf : Prefetch}.

(** [build_select_expression] reads the descriptor and leaves the world as
    it is. *)
Lemma build_select_expression_run self limit offset order_bys_arg w m :
  model_cls self = Some m ->
  QuerySet.build_select_expression self limit offset order_bys_arg w
  = (Ok (Query_build_select_expression
           {| q_model_cls := m;
              q_select_related := strs_at (heap w) (_select_related self);
              q_filter_clauses := clauses_at (heap w) (filter_clauses self);
              q_exclude_clauses := clauses_at (heap w) (exclude_clauses self);
              q_offset := or_int offset (query_offset self);
              q_limit_count := or_int limit (limit_count self);
              q_fields := dict_at (heap w) (_columns self);
              q_exclude_fields := dict_at (heap w) (_exclude_columns self);
              q_order_bys := or_list order_bys_arg (strs_at (heap w) (order_bys self));
              q_limit_raw_sql := limit_sql_raw self |}), w).
Proof.
  intros Hm. unfold QuerySet.build_select_expression, QuerySet.model. by rewrite Hm.
Qed.

(** C1. On a bound descriptor, [exclude(a=X, b=Y)] is [filter] with the
    inversion flag and returns a descriptor whose query has, for a parent
    without filter clauses, the one condition NOT (a=X AND b=Y).  Whatever
    the parent, a row passes the compiled conditions exactly when it passes
    the filter clauses of the parent and does not satisfy both a=X and b=Y;
    so a row that satisfies only one of the two is kept, which the
    conjunction of the two negations would drop. *)
Theorem exclude_negates_conjunction (self : QuerySet) (a b : string) (X Y : value)
    (w : world) (m : Model) :
  model_cls self = Some m -> allocated w self ->
  QuerySet.exclude self [(a, X); (b, Y)] = QuerySet.filter self true [(a, X); (b, Y)]
  /\ exists qs w' e,
       QuerySet.exclude self [(a, X); (b, Y)] w = (Ok qs, w')
       /\ QuerySet.build_select_expression qs None None None w' = (Ok e, w')
       /\ (clauses_at (heap w) (filter_clauses self) = [] ->
           sel_where e = [BNot (BAnd [BClause (Clause a X); BClause (Clause b Y)])])
       /\ (forall ev,
             forallb (holds ev) (sel_where e)
             = forallb ev (clauses_at (heap w) (filter_clauses self))
               && negb (ev (Clause a X) && ev (Clause b Y)))
       /\ (forall ev,
             forallb ev (clauses_at (heap w) (filter_clauses self)) = true ->
             ev (Clause a X) = true -> ev (Clause b Y) = false ->
             forallb (holds ev) (sel_where e) = true
             /\ negb (ev (Clause a X)) && negb (ev (Clause b Y)) = false).
Proof.
  intros Hm Hal. split; [reflexivity|].
  destruct (call_spec self (Exclude [(a, X); (b, Y)]) w m eq_refl Hm Hal)
    as (qs & w' & Hrun & _ & _ & Hmq & _ & Hobs).
  exists qs, w'. eexists. split; [exact Hrun|].
  split; [by apply build_select_expression_run|].
  assert (Hfc : clauses_at (heap w') (filter_clauses qs)
                = clauses_at (heap w) (filter_clauses self))
    by exact (f_equal obs_filter_clauses Hobs).
  assert (Hec : clauses_at (heap w') (exclude_clauses qs)
                = clauses_at (heap w) (filter_clauses self)
                  ++ [Clause a X; Clause b Y])
    by exact (f_equal obs_exclude_clauses Hobs).
  assert (Hsem : forall ev,
    forallb (holds ev)
      (FilterQuery_apply (clauses_at (heap w') (exclude_clauses qs)) true
         (FilterQuery_apply (clauses_at (heap w') (filter_clauses qs)) false []))
    = forallb ev (clauses_at (heap w) (filter_clauses self))
      && negb (ev (Clause a X) && ev (Clause b Y))).
  { intros ev. rewrite where_holds, Hfc, Hec, forallb_app.
    generalize (clauses_at (heap w) (filter_clauses self)) as F. intros F. cbn.
    rewrite bool_decide_eq_true_2 by (by destruct F).
    destruct (forallb ev F), (ev (Clause a X)), (ev (Clause b Y)); reflexivity. }
  cbn [sel_where Query_build_select_expression q_exclude_clauses q_filter_clauses].
  split_and!.
  - intros Hnil. rewrite Hfc, Hec, Hnil. reflexivity.
  - exact Hsem.
  - intros ev HF Ha Hb. rewrite Hsem, HF, Ha, Hb. by split.
Qed.

End expressions.

Lemma exclude_negates_conjunction_witness :
  QuerySet.exclude Fixtures.Track_objects [("album", VInt 1); ("position", VInt 2)]
  = QuerySet.filter Fixtures.Track_objects true [("album", VInt 1); ("position", VInt 2)]
  /\ exists qs w' e,
       QuerySet.exclude Fixtures.Track_objects
         [("album", VInt 1); ("position", VInt 2)] Fixtures.ready = (Ok qs, w')
       /\ QuerySet.build_select_expression qs None None None w' = (Ok e, w')
       /\ (clauses_at (heap Fixtures.ready) (filter_clauses Fixtures.Track_objects) = [] ->
           sel_where e = [BNot (BAnd [BClause (Clause "album" (VInt 1));
                                      BClause (Clause "position" (VInt 2))])])
       /\ (forall ev,
             forallb (holds ev) (sel_where e)
             = forallb ev (clauses_at (heap Fixtures.ready)
                             (filter_clauses Fixtures.Track_objects))
               && negb (ev (Clause "album" (VInt 1)) && ev (Clause "position" (VInt 2))))
       /\ (forall ev,
             forallb ev (clauses_at (heap Fixtures.ready)
                           (filter_clauses Fixtures.Track_objects)) = true ->
             ev (Clause "album" (VInt 1)) = true ->
             ev (Clause "position" (VInt 2)) = false ->
             forallb (holds ev) (sel_where e) = true
             /\ negb (ev (Clause "album" (VInt 1)))
                && negb (ev (Clause "position" (VInt 2))) = false).
Proof.
  apply (exclude_negates_conjunction (Ut := Fixtures.flat_utils) _ _ _ _ _ _ Fixtures.Track).
  - reflexivity.
  - intros []; cbn; lia.
Defined.

(** The scenario of the specification: every track is of album 1 and track 2
    alone is also at position 2, so [exclude(album=1, position=2)] drops
    track 2 and keeps the others. *)
Example exclude_two_fields :
  ((qs <- QuerySet.exclude Fixtures.Track_objects
            [("album", VInt 1); ("position", VInt 2)] ;;
    QuerySet.all (Cl := Fixtures.flat_clauses) (Pf := Fixtures.no_prefetch) qs []) Fixtures.ready).1
  = Ok [Some (mkInstance (Fixtures.track 1 1 "Test1" 1) true);
        Some (mkInstance (Fixtures.track 3 1 "Test3" 3) true)].
Proof. vm_compute. reflexivity. Qed.

(** ** The rows a query returns *)








Lemma insert_row_elem ob r rows x : x ∈ insert_row ob r rows <-> x = r \/ x ∈ rows.
Proof.
  induction rows as [|r' rows IH]; cbn.
  - rewrite list_elem_of_singleton, elem_of_nil. tauto.
  - destruct (row_le ob r r').
    + by rewrite elem_of_cons.
    + rewrite !elem_of_cons, IH. tauto.
Qed.

Lemma sort_rows_elem ob rows x : x ∈ sort_rows ob rows <-> x ∈ rows.
Proof.
  induction rows as [|r rows IH]; cbn; [done|].
  by rewrite insert_row_elem, elem_of_cons, IH.
Qed.



Lemma take_one_elem {A} (l : list A) x : x ∈ take 1 l -> head l = Some x.
Proof.
  destruct l as [|y l]; cbn; [by intros ?%elem_of_nil|].
  rewrite take_0. by intros ->%list_elem_of_singleton.
Qed.

Lemma head_elem {A} (l : list A) x : head l = Some x -> x ∈ l.
Proof. destruct l; [discriminate|]. intros [= ->]. left. Qed.


Lemma run_select_none {Cl : Clauses} db e :
  List.filter (row_matches (sel_table e) (sel_where e)) (table_rows db (sel_table e)) = [] ->
  run_select db e = [].
Proof.
  intros Hnone. unfold run_select, paginate. rewrite Hnone. cbn.
  destruct (sel_offset e), (sel_limit e); by rewrite ?drop_nil, ?take_nil.
Qed.

Lemma run_select_unbounded {Cl : Clauses} db e :
  sel_limit e = None -> sel_offset e = None ->
  run_select db e
  = sort_rows (sel_order_by e)
      (List.filter (row_matches (sel_table e) (sel_where e)) (table_rows db (sel_table e))).
Proof. intros Hl Ho. unfold run_select, paginate. by rewrite Hl, Ho. Qed.


(** Two different elements make a list longer than one. *)
Lemma two_elements {A} (l : list A) x y : x ∈ l -> y ∈ l -> x <> y -> 1 < length l.
Proof.
  intros Hx Hy Hne. destruct l as [|a [|b l]]; cbn; [by apply elem_of_nil in Hx | | lia].
  apply list_elem_of_singleton in Hx, Hy. congruence.
Qed.

(** ** Terminal operations that return one instance *)

Section single_result.
Context {Cl : Clauses} {Ut : utils.Utils} {Pf : Prefetch}.

Lemma get_with_criteria self kw :
  QuerySet.get self kw = (qs <- QuerySet.with_criteria self kw ;; QuerySet.get_ qs).
Proof. by destruct kw. Qed.

Lemma first_with_criteria self kw :
  QuerySet.first self kw = (qs <- QuerySet.with_criteria self kw ;; QuerySet.first_ qs).
Proof. by destruct kw. Qed.

(** [get] and [first] are one body around their expression. *)
Lemma run_single_unfold op self kw :
  run_single op self kw
  = (qs <- QuerySet.with_criteria self kw ;;
     expr <- expression_of op qs ;;
     processed_rows <- QuerySet.fetch_and_process qs expr ;;
     _ <- QuerySet.check_single_result_rows_count processed_rows ;;
     QuerySet.first_of processed_rows).
Proof.
  destruct op; cbn [run_single expression_of];
    [apply get_with_criteria | apply first_with_criteria].
Qed.

(** The descriptor a terminal operation with criteria runs on has the
    criteria among its filter clauses, and the prefetch list, limit and
    offset of the descriptor it was called on. *)
Lemma with_criteria_spec self kw w m :
  model_cls self = Some m -> allocated w self ->
  exists qs w0,
    QuerySet.with_criteria self kw w = (Ok qs, w0)
    /\ extends w w0
    /\ model_cls qs = Some m
    /\ _prefetch_related qs = _prefetch_related self
    /\ clauses_at (heap w0) (filter_clauses qs)
       = clauses_at (heap w) (filter_clauses self) ++ map (fun kv => Clause kv.1 kv.2) kw
    /\ limit_count qs = limit_count self
    /\ query_offset qs = query_offset self.
Proof.
  intros Hm Hal. destruct kw as [|kv kw].
  - exists self, w. split_and!; auto using extends_refl. by rewrite app_nil_r.
  - destruct (call_spec self (Filter (kv :: kw)) w m eq_refl Hm Hal)
      as (qs & w0 & Hrun & Hext & _ & Hmq & Hk & Hobs).
    exists qs, w0. split_and!; auto.
    + exact (Hk Prefetch_related_list).
    + exact (f_equal obs_filter_clauses Hobs).
    + exact (f_equal obs_limit_count Hobs).
    + exact (f_equal obs_query_offset Hobs).
Qed.

Lemma get_expression_run self w m :
  model_cls self = Some m ->
  clauses_at (heap w) (filter_clauses self) = [] ->
  QuerySet.get_expression self w
  = QuerySet.build_select_expression self (Some 1%Z) None
      (Some (["-" +:+ pkname m] ++ strs_at (heap w) (order_bys self))) w.
Proof.
  intros Hm Hnil. unfold QuerySet.get_expression, QuerySet.model.
  unfold bind at 1, get_clauses. rewrite Hnil, Hm. reflexivity.
Qed.

Lemma get_expression_filtered self w :
  clauses_at (heap w) (filter_clauses self) <> [] ->
  QuerySet.get_expression self w
  = QuerySet.build_select_expression self None None None w.
Proof.
  intros Hne. unfold QuerySet.get_expression. unfold bind at 1, get_clauses.
  by destruct (clauses_at (heap w) (filter_clauses self)).
Qed.

Lemma first_expression_run self w m :
  model_cls self = Some m ->
  QuerySet.first_expression self w
  = QuerySet.build_select_expression self (Some 1%Z) None
      (Some ([pkname m] ++ strs_at (heap w) (order_bys self))) w.
Proof.
  intros Hm. unfold QuerySet.first_expression, QuerySet.model. by rewrite Hm.
Qed.

(** On a bound descriptor the expression of [get] and [first] compiles; it
    is about the table of the model. *)
Lemma expression_of_run op qs w0 m :
  model_cls qs = Some m ->
  exists e, expression_of op qs w0 = (Ok e, w0) /\ sel_table e = tablename m.
Proof.
  intros Hmq. destruct op; cbn [expression_of].
  - destruct (clauses_at (heap w0) (filter_clauses qs)) as [|c fcs] eqn:Hfcs.
    + eexists. rewrite (get_expression_run _ _ m Hmq Hfcs).
      split; [apply (build_select_expression_run _ _ _ _ _ m Hmq) | reflexivity].
    + eexists. rewrite get_expression_filtered by (by rewrite Hfcs).
      split; [apply (build_select_expression_run _ _ _ _ _ m Hmq) | reflexivity].
  - eexists. rewrite (first_expression_run _ _ m Hmq).
    split; [apply (build_select_expression_run _ _ _ _ _ m Hmq) | reflexivity].
Qed.

(** When no row is fetched there is nothing to reconcile and nothing to
    prefetch for. *)
Lemma fetch_and_process_none qs e w0 m :
  model_cls qs = Some m -> run_select (database w0) e = [] ->
  QuerySet.fetch_and_process qs e w0 = (Ok [], add_event (Fetch_all e) w0).
Proof.
  intros Hmq Hnone. unfold QuerySet.fetch_and_process, QuerySet.model_meta. rewrite Hmq.
  unfold bind at 1, ret at 1. unfold bind at 1, fetch_all. by rewrite Hnone.
Qed.

(** Without prefetch paths, running an expression is the fetch and the
    reconciliation of the rows fetched. *)
Lemma fetch_and_process_plain qs e w0 m :
  model_cls qs = Some m ->
  heap w0 !! _prefetch_related qs = Some (OStrs []) ->
  QuerySet.fetch_and_process qs e w0
  = (Ok (match run_select (database w0) e with
         | [] => []
         | rows =>
             merge_instances_list m
               (map (fun row => from_row m row (strs_at (heap w0) (_select_related qs))
                                  (dict_at (heap w0) (_columns qs))
                                  (dict_at (heap w0) (_exclude_columns qs)))
                  rows)
         end),
     add_event (Fetch_all e) w0).
Proof.
  intros Hmq Hpr0. unfold QuerySet.fetch_and_process, QuerySet.model_meta. rewrite Hmq.
  unfold bind at 1, ret at 1. unfold bind at 1, fetch_all.
  unfold QuerySet._process_query_result_rows, QuerySet.model. rewrite Hmq.
  destruct (run_select (database w0) e) as [|r rows]; [reflexivity|].
  unfold bind, ret, truthy, get_strs, get_dict.
  cbn [heap add_event]. rewrite Hpr0. cbn [obj_truthy].
  by destruct (merge_instances_list m _).
Qed.


(** What [get] and [first] make of the instances they are handed. *)
Lemma run_single_judges op self qs kw w w0 e :
  QuerySet.with_criteria self kw w = (Ok qs, w0) ->
  expression_of op qs w0 = (Ok e, w0) ->
  run_single op self kw w
  = match QuerySet.fetch_and_process qs e w0 with
    | (Ok [], w1) | (Ok (None :: _), w1) => (Raise NoMatch, w1)
    | (Ok [Some i], w1) => (Ok i, w1)
    | (Ok (Some _ :: _ :: _), w1) => (Raise MultipleMatches, w1)
    | (Raise ex, w1) => (Raise ex, w1)
    end.
Proof.
  intros Hqs He. rewrite run_single_unfold.
  rewrite (bind_ok _ _ _ _ _ Hqs), (bind_ok _ _ _ _ _ He). unfold bind at 1.
  destruct (QuerySet.fetch_and_process qs e w0) as [[rows|ex] w1]; [|reflexivity].
  by destruct rows as [|[i|] [|j rows]].
Qed.

(** C4, as amended.  On a bound descriptor, [get] and [first] run their
    expression on the descriptor narrowed by the keyword criteria, and judge
    the instances that reconciliation (and prefetching) hands back: none, or
    no instance in the first place, is [NoMatch]; more than one is
    [MultipleMatches]; exactly one is the result.  When no row of the table
    passes the conditions of the expression, the result is [NoMatch], after
    the one fetch.  When two rows with different primary keys pass them,
    [get] raises [MultipleMatches], provided all matching rows are fetched
    and reconciled by key: the descriptor has criteria or filter clauses, no
    limit, no offset and nothing to prefetch. *)
Theorem single_result_errors (op : single_op) (self qs : QuerySet) (kw : kwargs)
    (w w0 : world) (m : Model) :
  model_cls self = Some m -> allocated w self ->
  QuerySet.with_criteria self kw w = (Ok qs, w0) ->
  exists e,
    expression_of op qs w0 = (Ok e, w0)
    /\ run_single op self kw w
       = match QuerySet.fetch_and_process qs e w0 with
         | (Ok [], w1) | (Ok (None :: _), w1) => (Raise NoMatch, w1)
         | (Ok [Some i], w1) => (Ok i, w1)
         | (Ok (Some _ :: _ :: _), w1) => (Raise MultipleMatches, w1)
         | (Raise ex, w1) => (Raise ex, w1)
         end
    /\ let matching :=
         List.filter (row_matches (sel_table e) (sel_where e))
           (table_rows (database w) (sel_table e)) in
       let key := get_column_alias m (pkname m) in
       (matching = [] ->
        run_single op self kw w = (Raise NoMatch, add_event (Fetch_all e) w0))
       /\ (op = Get ->
           kw <> [] \/ clauses_at (heap w) (filter_clauses self) <> [] ->
           limit_count self = None -> query_offset self = None ->
           heap w !! _prefetch_related self = Some (OStrs []) ->
           reconciles_by_key m ->
           Forall (fun r => column key r <> VNone)
             (table_rows (database w) (tablename m)) ->
           forall r1 r2, r1 ∈ matching -> r2 ∈ matching ->
             column key r1 <> column key r2 ->
             run_single op self kw w
             = (Raise MultipleMatches, add_event (Fetch_all e) w0)).
Proof.
  intros Hm Hal Hqs.
  destruct (with_criteria_spec self kw w m Hm Hal)
    as (qs' & w0' & Hqs' & Hext & Hmq & Hprq & Hfc & Hlim & Hoff).
  rewrite Hqs in Hqs'. injection Hqs' as <- <-.
  destruct (expression_of_run op qs w0 m Hmq) as (e & He & Htable).
  pose proof (run_single_judges op self qs kw w w0 e Hqs He) as Hjudge.
  pose proof Hext as (_ & Hdb & _).
  exists e. split; [exact He|]. split; [exact Hjudge|]. cbv zeta. split.
  - intros Hnone. rewrite Hjudge.
    rewrite (fetch_and_process_none qs e w0 m Hmq); [reflexivity|].
    apply run_select_none. by rewrite Hdb.
  - intros -> Hsome Hnolimit Hnooffset Hpr Hrec Hkeyed r1 r2 Hr1 Hr2 Hdiff.
    assert (Hne : clauses_at (heap w0) (filter_clauses qs) <> []).
    { rewrite Hfc. intros [Hf Hmap]%app_eq_nil.
      destruct Hsome as [Hkw|Hne]; [|done]. by destruct kw. }
    assert (Hpr0 : heap w0 !! _prefetch_related qs = Some (OStrs [])).
    { rewrite Hprq, (extends_lookup w w0); [done | done | apply (Hal Prefetch_related_list)]. }
    cbn [expression_of] in He.
    rewrite (get_expression_filtered qs w0 Hne) in He.
    rewrite (build_select_expression_run _ _ _ _ _ m Hmq) in He.
    injection He as <-.
    rewrite Hjudge, (fetch_and_process_plain _ _ w0 m Hmq Hpr0).
    rewrite run_select_unbounded
      by (cbn; rewrite ?Hlim, ?Hoff, ?Hnolimit, ?Hnooffset; reflexivity).
    rewrite Hdb.
    match goal with |- context [sort_rows ?ob ?l] => set (rows := sort_rows ob l) in * end.
    assert (Hin : forall r, r ∈ rows -> r ∈ table_rows (database w) (tablename m)).
    { intros r Hr. apply sort_rows_elem, list_elem_of_In, filter_In in Hr as [Hr _].
      by apply list_elem_of_In. }
    assert (Hr1' : r1 ∈ rows) by (by apply sort_rows_elem).
    assert (Hr2' : r2 ∈ rows) by (by apply sort_rows_elem).
    assert (Hkeyed' : Forall (fun r => column (get_column_alias m (pkname m)) r <> VNone) rows).
    { apply Forall_forall. intros r Hr. rewrite Forall_forall in Hkeyed.
      by apply Hkeyed, Hin. }
    destruct (Hrec rows (strs_at (heap w0) (_select_related qs))
                (dict_at (heap w0) (_columns qs))
                (dict_at (heap w0) (_exclude_columns qs)) Hkeyed') as [Hhead Hlong].
    specialize (Hlong r1 r2 Hr1' Hr2' Hdiff).
    destruct rows as [|r rows'] eqn:Hrows; [by apply elem_of_nil in Hr1'|].
    destruct (Hhead ltac:(done)) as [i Hi].
    destruct (merge_instances_list m _) as [|[j|] [|k merged]];
      cbn in Hi, Hlong; try discriminate; try lia; reflexivity.
Qed.

End single_result.

(** [test_get_exceptions]: three tracks of one album, and
    [Track.objects.select_related("album").get(album=1)]. *)
Example get_three_tracks_of_album :
  ((qs <- QuerySet.select_related Fixtures.Track_objects (Str "album") ;;
    QuerySet.get (Cl := Fixtures.flat_clauses) (Pf := Fixtures.no_prefetch) qs
      [("album", VInt 1)]) Fixtures.ready).1
  = Raise MultipleMatches.
Proof. vm_compute. reflexivity. Qed.

Example get_no_track :
  (QuerySet.get (Cl := Fixtures.flat_clauses) (Pf := Fixtures.no_prefetch)
     Fixtures.Track_objects [("title", VStr "Test4")] Fixtures.ready).1
  = Raise NoMatch.
Proof. vm_compute. reflexivity. Qed.

Example first_no_track :
  (QuerySet.first (Cl := Fixtures.flat_clauses) (Pf := Fixtures.no_prefetch)
     Fixtures.Track_objects [("title", VStr "Test4")] Fixtures.ready).1
  = Raise NoMatch.
Proof. vm_compute. reflexivity. Qed.

Example get_one_track :
  (QuerySet.get (Cl := Fixtures.flat_clauses) (Pf := Fixtures.no_prefetch)
     Fixtures.Track_objects [("title", VStr "Test2")] Fixtures.ready).1
  = Ok (mkInstance (Fixtures.track 2 1 "Test2" 2) true).
Proof. vm_compute. reflexivity. Qed.

(** The keyword [pk] stands for the primary key. *)
Example get_by_pk :
  (QuerySet.get (Cl := Fixtures.flat_clauses) (Pf := Fixtures.no_prefetch)
     Fixtures.Track_objects [("pk", VInt 2)] Fixtures.ready).1
  = Ok (mkInstance (Fixtures.track 2 1 "Test2" 2) true).
Proof. vm_compute. reflexivity. Qed.

(** An operator suffix is part of the clause. *)
Example all_position_gt :
  (QuerySet.all (Cl := Fixtures.flat_clauses) (Pf := Fixtures.no_prefetch)
     Fixtures.Track_objects [("position__gt", VInt 1)] Fixtures.ready).1
  = Ok [Some (mkInstance (Fixtures.track 2 1 "Test2" 2) true);
        Some (mkInstance (Fixtures.track 3 1 "Test3" 3) true)].
Proof. vm_compute. reflexivity. Qed.

(** C4, as stated, fails: the three tracks of album 1 all match, yet
    [Track.objects.limit(1).get(album=1)] fetches one of them and returns
    it. *)
Lemma get_with_limit_returns_one_of_many :
  ((qs <- QuerySet.limit Fixtures.Track_objects 1 None ;;
    QuerySet.get (Cl := Fixtures.flat_clauses) (Pf := Fixtures.no_prefetch) qs
      [("album", VInt 1)]) Fixtures.ready).1
  = Ok (mkInstance (Fixtures.track 1 1 "Test1" 1) true)
  /\ List.filter
       (row_matches (Cl := Fixtures.flat_clauses) "track"
          [BAnd [BClause (Clause "album" (VInt 1))]])
       (table_rows Fixtures.test_db "track")
     = [Fixtures.track 1 1 "Test1" 1; Fixtures.track 2 1 "Test2" 2;
        Fixtures.track 3 1 "Test3" 3].
Proof. split; vm_compute; reflexivity. Qed.

(** The models of the fixtures reconcile rows by their key. *)
Lemma merge_by_pk_keeps pk l : forall seen x,
  x ∈ l -> Fixtures.instance_pk pk x ∉ seen ->
  exists y, y ∈ Fixtures.merge_by_pk pk seen l
            /\ Fixtures.instance_pk pk y = Fixtures.instance_pk pk x.
Proof.
  induction l as [|i l IH]; intros seen x Hx Hnew; [by apply elem_of_nil in Hx|].
  cbn. apply elem_of_cons in Hx as [->|Hx].
  - rewrite bool_decide_eq_false_2 by done. exists i. split; [left | done].
  - destruct (decide (Fixtures.instance_pk pk i ∈ seen)) as [Hi|Hi].
    + rewrite bool_decide_eq_true_2 by done. by apply IH.
    + rewrite bool_decide_eq_false_2 by done.
      destruct (decide (Fixtures.instance_pk pk x = Fixtures.instance_pk pk i)) as [Heq|Hne].
      * exists i. split; [left | done].
      * destruct (IH (Fixtures.instance_pk pk i :: seen) x Hx) as (y & Hy & Hpk).
        { rewrite not_elem_of_cons. by split. }
        exists y. split; [by right | done].
Qed.

Lemma plain_model_reconciles_by_key name table columns :
  reconciles_by_key (Fixtures.plain_model name table columns).
Proof.
  intros rows sr cols excl Hkeyed merged. subst merged. cbn in *.
  set (insts := map _ rows).
  assert (Hinst : forall r, r ∈ rows ->
            Some (mkInstance r true) ∈ insts
            /\ Fixtures.instance_pk "id" (Some (mkInstance r true)) = column "id" r).
  { intros r Hr. split; [|reflexivity].
    unfold insts. apply list_elem_of_fmap. exists r. split; [|done].
    rewrite Forall_forall in Hkeyed. specialize (Hkeyed r Hr).
    by destruct (column "id" r). }
  split.
  - intros Hne. destruct rows as [|r rows]; [done|].
    unfold insts. cbn.
    inversion Hkeyed as [|? ? Hr _]; subst.
    destruct (column "id" r) eqn:Hc; [done | |];
      rewrite bool_decide_eq_false_2 by apply not_elem_of_nil; by eexists.
  - intros r1 r2 Hr1 Hr2 Hdiff.
    destruct (Hinst r1 Hr1) as [Hi1 Hk1]. destruct (Hinst r2 Hr2) as [Hi2 Hk2].
    destruct (merge_by_pk_keeps "id" insts [] _ Hi1 ltac:(apply not_elem_of_nil))
      as (y1 & Hy1 & Hp1).
    destruct (merge_by_pk_keeps "id" insts [] _ Hi2 ltac:(apply not_elem_of_nil))
      as (y2 & Hy2 & Hp2).
    apply (two_elements _ y1 y2 Hy1 Hy2). intros ->. congruence.
Qed.

Lemma single_result_errors_witness :
  exists w1,
    run_single (Cl := Fixtures.flat_clauses) (Pf := Fixtures.no_prefetch) Get
      Fixtures.Track_objects [("album", VInt 1)] Fixtures.ready
    = (Raise MultipleMatches, w1).
Proof.
  destruct (single_result_errors (Cl := Fixtures.flat_clauses) (Ut := Fixtures.flat_utils)
              (Pf := Fixtures.no_prefetch) Get Fixtures.Track_objects
              (mkQuerySet (Some Fixtures.Track) 7 1 8 3 None None 9 10 11 false)
              [("album", VInt 1)] Fixtures.ready
              (QuerySet.with_criteria Fixtures.Track_objects [("album", VInt 1)]
                 Fixtures.ready).2
              Fixtures.Track eq_refl ltac:(intros []; cbn; lia) eq_refl)
    as (e & He & _ & _ & Hmulti).
  injection He as <-.
  eexists.
  apply (Hmulti eq_refl ltac:(by left) eq_refl eq_refl eq_refl
           (plain_model_reconciles_by_key _ _ _)
           ltac:(by repeat constructor)
           (Fixtures.track 1 1 "Test1" 1) (Fixtures.track 2 1 "Test2" 2)).
  - vm_compute. left.
  - vm_compute. right. left.
  - by vm_compute.
Defined.

(** ** Operations that change the database *)

Lemma table_rows_insert db t rows : table_rows (<[t := rows]> db) t = rows.
Proof. unfold table_rows. by rewrite lookup_insert_eq. Qed.



Section mutations.
Context {Cl : Clauses} {Ut : utils.Utils} {Pf : Prefetch}.


End mutations.



(** [update(each=True, title="x", bogus=1)] on the three tracks. *)
Example update_each_track :
  (QuerySet.update (Cl := Fixtures.flat_clauses) Fixtures.Track_objects true
     [("title", VStr "x"); ("bogus", VInt 1)] Fixtures.ready).1 = Ok (VInt 3)
  /\ log (QuerySet.update (Cl := Fixtures.flat_clauses) Fixtures.Track_objects true
            [("title", VStr "x"); ("bogus", VInt 1)] Fixtures.ready).2
     = [Execute (Update "track" [("title", VStr "x")] [])].
Proof. split; vm_compute; reflexivity. Qed.

Section update_values.
Context {Cl : Clauses} {Ut : utils.Utils} {Pf : Prefetch}.



End update_values.



(** ** [bulk_update] *)

Section bulk.
Context {Cl : Clauses} {Ut : utils.Utils} {Pf : Prefetch}.

(** An object [bulk_update] refuses: its primary key is missing or [None]. *)
Lemma ready_object_unsaved m pk_name columns objt w :
  dict_get pk_name (inst_dict objt) = None
  \/ dict_get pk_name (inst_dict objt) = Some VNone ->
  exists msg,
    QuerySet.ready_object m pk_name columns objt w = (Raise (ModelPersistenceError msg), w).
Proof.
  intros Hpk. eexists. unfold QuerySet.ready_object, dict_has.
  destruct Hpk as [-> | ->]; reflexivity.
Qed.

(** Preparing an object changes nothing in the world. *)
Lemma ready_object_pure m pk_name columns objt w :
  (QuerySet.ready_object m pk_name columns objt w).2 = w.
Proof. unfold QuerySet.ready_object. by destruct (_ || _). Qed.

(** The loop over the objects stops at the first that is refused, and the
    world is as it was. *)
Lemma for_each_ready_object_unsaved m pk_name columns objects : forall w,
  Exists (fun objt => dict_get pk_name (inst_dict objt) = None
                      \/ dict_get pk_name (inst_dict objt) = Some VNone) objects ->
  exists msg,
    for_each (QuerySet.ready_object m pk_name columns) objects w
    = (Raise (ModelPersistenceError msg), w).
Proof.
  induction objects as [|objt objects IH]; intros w Hex; [by inversion Hex|].
  cbn [for_each]. unfold bind at 1.
  destruct (QuerySet.ready_object m pk_name columns objt w) as [[kw|e] w1] eqn:Hobj.
  - pose proof (ready_object_pure m pk_name columns objt w) as Hw.
    rewrite Hobj in Hw. cbn in Hw. subst w1.
    assert (Hrest : Exists (fun objt => dict_get pk_name (inst_dict objt) = None
                              \/ dict_get pk_name (inst_dict objt) = Some VNone) objects).
    { inversion Hex as [? ? Hhere|]; subst; [|assumption].
      destruct (ready_object_unsaved m pk_name columns objt w Hhere) as [msg Hmsg].
      rewrite Hmsg in Hobj. discriminate. }
    destruct (IH w Hrest) as [msg Hmsg]. exists msg.
    unfold bind. by rewrite Hmsg.
  - pose proof (ready_object_pure m pk_name columns objt w) as Hw.
    rewrite Hobj in Hw. cbn in Hw. subst w1.
    revert Hobj. unfold QuerySet.ready_object. destruct (_ || _); [|discriminate].
    intros [= <-]. by eexists.
Qed.

(** C6. When one of the objects passed to [bulk_update] has no primary key,
    or has [None] for it, [bulk_update] raises [ModelPersistenceError] and
    the world is as it was: the database is unchanged, for the objects with
    a key too, and no round trip was made. *)
Theorem bulk_update_unsaved_aborts (self : QuerySet) (objects : list Instance)
    (columns : option (list string)) (w : world) (m : Model) :
  model_cls self = Some m ->
  Exists (fun objt => dict_get (pkname m) (inst_dict objt) = None
                      \/ dict_get (pkname m) (inst_dict objt) = Some VNone) objects ->
  exists msg,
    QuerySet.bulk_update self objects columns w = (Raise (ModelPersistenceError msg), w).
Proof.
  intros Hm Hex.
  unfold QuerySet.bulk_update, QuerySet.model_meta, QuerySet.model. rewrite Hm.
  unfold bind at 1. unfold ret at 1.
  unfold bind at 1.
  set (cols := match columns with Some (c :: cs) => ret (c :: cs) | _ => _ end).
  assert (Hcols : exists l, cols w = (Ok l, w)).
  { subst cols. destruct columns as [[|c cs]|]; eexists; reflexivity. }
  destruct Hcols as [l ->].
  unfold bind at 1. unfold ret at 1. unfold bind at 1.
  match goal with
  | |- context [for_each (QuerySet.ready_object m (pkname m) ?c) objects w] =>
      destruct (for_each_ready_object_unsaved m (pkname m) c objects w Hex) as [msg ->]
  end.
  by exists msg.
Qed.

End bulk.

(** The second of three tracks was never saved: nothing is written, not even
    for the first. *)
Lemma bulk_update_unsaved_aborts_witness :
  exists msg,
    QuerySet.bulk_update (Cl := Fixtures.flat_clauses) Fixtures.Track_objects
      [mkInstance (Fixtures.track 1 1 "One" 1) true;
       mkInstance [("album", VInt 1); ("title", VStr "New"); ("position", VInt 4)] false;
       mkInstance (Fixtures.track 3 1 "Three" 3) true]
      None Fixtures.ready
    = (Raise (ModelPersistenceError msg), Fixtures.ready).
Proof.
  apply (bulk_update_unsaved_aborts (Cl := Fixtures.flat_clauses) _ _ _ _ Fixtures.Track).
  - reflexivity.
  - apply Exists_cons_tl, Exists_cons_hd. left. reflexivity.
Defined.

(** With every object saved, the batch is sent in one round trip. *)
Example bulk_update_saved :
  log (QuerySet.bulk_update (Cl := Fixtures.flat_clauses) Fixtures.Track_objects
         [mkInstance (Fixtures.track 1 1 "One" 1) true] (Some ["title"])
         Fixtures.ready).2
  = [Execute_many (UpdateMany "track" "id" ["title"])
       [[("new_id", VInt 1); ("new_title", VStr "One")]]]
  /\ table_rows
       (database (QuerySet.bulk_update (Cl := Fixtures.flat_clauses) Fixtures.Track_objects
                    [mkInstance (Fixtures.track 1 1 "One" 1) true] (Some ["title"])
                    Fixtures.ready).2) "track"
     = [Fixtures.track 1 1 "One" 1; Fixtures.track 2 1 "Test2" 2;
        Fixtures.track 3 1 "Test3" 3].
Proof. split; vm_compute; reflexivity. Qed.

(** ** [get_or_create] *)

Section get_or_create.
Context {Cl : Clauses} {Ut : utils.Utils} {Pf : Prefetch}.

(** C8. [get_or_create] runs [get] with the keyword arguments.  When [get]
    returns an instance, that instance is the result and nothing more is
    done.  When [get] raises [NoMatch], the result is that of [create] with
    the same arguments, run in the world [get] left.  When [get] raises
    anything else, [MultipleMatches] for one, the exception is the result and
    [create] is not run. *)
Theorem get_or_create_cases (self : QuerySet) (kw : kwargs) (w : world) :
  match QuerySet.get self kw w with
  | (Ok instance, w') => QuerySet.get_or_create self kw w = (Ok instance, w')
  | (Raise NoMatch, w') => QuerySet.get_or_create self kw w = QuerySet.create self kw w'
  | (Raise e, w') => QuerySet.get_or_create self kw w = (Raise e, w')
  end.
Proof.
  unfold QuerySet.get_or_create, try_except.
  destruct (QuerySet.get self kw w) as [[instance|e] w']; [reflexivity|].
  destruct e; reflexivity.
Qed.

End get_or_create.

(** An existing track is returned and nothing is inserted. *)
Example get_or_create_existing :
  (QuerySet.get_or_create (Cl := Fixtures.flat_clauses) (Pf := Fixtures.no_prefetch) Fixtures.Track_objects
     [("title", VStr "Test2")] Fixtures.ready).1
  = Ok (mkInstance (Fixtures.track 2 1 "Test2" 2) true)
  /\ database (QuerySet.get_or_create (Cl := Fixtures.flat_clauses) (Pf := Fixtures.no_prefetch) Fixtures.Track_objects
                 [("title", VStr "Test2")] Fixtures.ready).2
     = Fixtures.test_db.
Proof. split; vm_compute; reflexivity. Qed.

(** A track that does not exist is created. *)
Example get_or_create_new :
  (QuerySet.get_or_create (Cl := Fixtures.flat_clauses) (Pf := Fixtures.no_prefetch) Fixtures.Track_objects
     [("title", VStr "New")] Fixtures.ready).1
  = Ok (mkInstance [("title", VStr "New"); ("id", VInt 4)] true)
  /\ table_rows
       (database (QuerySet.get_or_create (Cl := Fixtures.flat_clauses) (Pf := Fixtures.no_prefetch)
                    Fixtures.Track_objects [("title", VStr "New")] Fixtures.ready).2)
       "track"
     = [Fixtures.track 1 1 "Test1" 1; Fixtures.track 2 1 "Test2" 2;
        Fixtures.track 3 1 "Test3" 3; [("title", VStr "New"); ("id", VInt 4)]].
Proof. split; vm_compute; reflexivity. Qed.

(** Three tracks match: the error of [get] comes back and nothing is
    inserted. *)
Example get_or_create_ambiguous :
  (QuerySet.get_or_create (Cl := Fixtures.flat_clauses) (Pf := Fixtures.no_prefetch) Fixtures.Track_objects
     [("album", VInt 1)] Fixtures.ready).1
  = Raise MultipleMatches
  /\ database (QuerySet.get_or_create (Cl := Fixtures.flat_clauses) (Pf := Fixtures.no_prefetch) Fixtures.Track_objects
                 [("album", VInt 1)] Fixtures.ready).2
     = Fixtures.test_db.
Proof. split; vm_compute; reflexivity. Qed.

(** ** [get()] and [first()] without criteria *)



Section single_row.
Context {Cl : Clauses} {Ut : utils.Utils} {Pf : Prefetch}.







End single_row.

Lemma merge_by_pk_length pk l : forall seen,
  length (Fixtures.merge_by_pk pk seen l) <= length l.
Proof.
  induction l as [|i l IH]; intros seen; [reflexivity|].
  cbn. destruct (bool_decide _); cbn; [etrans; [apply IH|lia] | apply le_n_S, IH].
Qed.

Lemma plain_model_merge_never_longer name table columns :
  merge_never_longer (Fixtures.plain_model name table columns).
Proof. intros l. apply merge_by_pk_length. Qed.


Lemma no_prefetch_keeps_roots : prefetch_keeps_roots (Pf := Fixtures.no_prefetch).
Proof. intros q models rows w. exact (le_n _). Qed.



(** [Track.objects.get()] is the last track, [Track.objects.first()] the
    first. *)
Example get_last_track :
  (QuerySet.get (Cl := Fixtures.flat_clauses) (Pf := Fixtures.no_prefetch)
     Fixtures.Track_objects [] Fixtures.ready).1
  = Ok (mkInstance (Fixtures.track 3 1 "Test3" 3) true).
Proof. vm_compute. reflexivity. Qed.

Example first_track :
  (QuerySet.first (Cl := Fixtures.flat_clauses) (Pf := Fixtures.no_prefetch)
     Fixtures.Track_objects [] Fixtures.ready).1
  = Ok (mkInstance (Fixtures.track 1 1 "Test1" 1) true).
Proof. vm_compute. reflexivity. Qed.

(** * Further properties of the query set *)

(** ** [Model.objects] *)

(** X1.  Reading [objects] off a model class whose forward references are not
    resolved raises [ModelError] and touches nothing.  Otherwise it gives a
    descriptor bound to the class, with seven new containers, all empty and
    no two of them the same object, and no limit or offset: two readings
    share nothing. *)
Theorem objects_is_a_new_descriptor (owner : Model) (w : world) :
  if requires_ref_update owner
  then exists msg, QuerySet.__get__ owner w = (Raise (ModelError msg), w)
  else exists qs w',
      QuerySet.__get__ owner w = (Ok qs, w')
      /\ model_cls qs = Some owner
      /\ extends w w'
      /\ allocated w' qs
      /\ (forall k, length (heap w) <= container_loc k qs)
      /\ NoDup (map (fun k => container_loc k qs) all_containers)
      /\ observe w' qs = mkObservation [] [] [] [] None None [] [] [] false.
Proof.
  unfold QuerySet.__get__. destruct (requires_ref_update owner); [by eexists|].
  eexists _, _. split; [reflexivity|]. cbn.
  split; [reflexivity|].
  split.
  { split_and!; cbn; try reflexivity. rewrite <- !app_assoc. by apply prefix_app_r. }
  split.
  { intros []; cbn; rewrite !length_app; cbn; lia. }
  split.
  { intros []; cbn; rewrite ?length_app; cbn; lia. }
  split.
  { cbn. rewrite !length_app. cbn.
    repeat (apply NoDup_cons; split; [rewrite ?elem_of_cons, elem_of_nil; lia|]).
    apply NoDup_nil_2. }
  unfold observe. cbn. f_equal; heap_reads; reflexivity.
Qed.

(** ** A descriptor without a model class *)

Section unbound.
Context {Cl : Clauses} {Ut : utils.Utils} {Pf : Prefetch}.

(** X2.  On a descriptor that is bound to no model class every builder and every
    terminal operation that needs the class raises [ValueError]; the store
    may have grown by a list that was built first, the mask that [fields] or
    [exclude_fields] has handed to its helper by then may have changed, and
    the database and the log are as before: no round trip is made. *)
Theorem unbound_descriptor_raises (self : QuerySet) (w : world) :
  model_cls self = None ->
  (forall c, exists msg w',
      call self c w = (Raise (ValueError msg), w')
      /\ database w' = database w /\ log w' = log w
      /\ (mask_call c = false \/ helpers_keep -> extends w w'))
  /\ (forall op kw, exists msg,
        run_single op self kw w = (Raise (ValueError msg), w))
  /\ (forall kw, exists msg, QuerySet.all self kw w = (Raise (ValueError msg), w))
  /\ (forall each kw, exists msg,
        QuerySet.update self each kw w = (Raise (ValueError msg), w))
  /\ (forall kw, exists msg, QuerySet.create self kw w = (Raise (ValueError msg), w))
  /\ (forall objects columns, exists msg,
        QuerySet.bulk_update self objects columns w = (Raise (ValueError msg), w)).
Proof.
  intros Hm.
  assert (Hfilter : forall x kw,
    QuerySet.filter self x kw w
    = (Raise (ValueError "Model class of QuerySet is not initialized"), w)).
  { intros x kw. unfold QuerySet.filter, QuerySet.model. by rewrite Hm. }
  split_and!.
  - intros c.
    assert (Hraise : exists msg, (call self c w).1 = Raise (ValueError msg)).
    { destruct c; cbn [call]; unfold QuerySet.exclude; rewrite ?Hfilter;
        try (by eexists);
        unfold QuerySet.select_related, QuerySet.prefetch_related, QuerySet.fields,
          QuerySet.exclude_fields, QuerySet.order_by, QuerySet.limit, QuerySet.offset,
          QuerySet.model; rewrite ?Hm; try (by eexists).
      - destruct (call_mask_helper_keeps (_columns self) columns w)
          as (l' & w1 & E1 & _).
        rewrite (bind_ok _ _ _ _ _ E1). by eexists.
      - destruct (call_mask_helper_keeps (_exclude_columns self) columns w)
          as (l' & w1 & E1 & _).
        rewrite (bind_ok _ _ _ _ _ E1). by eexists. }
    destruct Hraise as [msg Hmsg]. exists msg, (call self c w).2.
    split; [by rewrite <- Hmsg; destruct (call self c w)|].
    destruct (call_keeps self c w) as [(_ & _ & Hdb & Hlog) _].
    split_and!; [exact Hdb | exact Hlog | intros Hc; by apply grows_call].
  - intros op kw. eexists. rewrite run_single_unfold.
    destruct kw as [|kv kw]; cbn [QuerySet.with_criteria].
    + destruct op; cbn [expression_of];
        unfold QuerySet.get_expression, QuerySet.first_expression,
          QuerySet.build_select_expression, QuerySet.model;
        unfold bind, ret, get_clauses;
        [destruct (clauses_at (heap w) (filter_clauses self))|];
        rewrite Hm; reflexivity.
    + unfold bind at 1. rewrite Hfilter. reflexivity.
  - intros kw. eexists. unfold QuerySet.all.
    destruct kw as [|kv kw].
    + unfold QuerySet.build_select_expression, QuerySet.model. by rewrite Hm.
    + unfold bind at 1. by rewrite Hfilter.
  - intros each kw. eexists. unfold QuerySet.update, QuerySet.model. by rewrite Hm.
  - intros kw. eexists. unfold QuerySet.create, QuerySet.model. by rewrite Hm.
  - intros objects columns. eexists.
    unfold QuerySet.bulk_update, QuerySet.model_meta. by rewrite Hm.
Qed.

End unbound.

Lemma unbound_descriptor_raises_witness :
  exists msg,
    QuerySet.limit (mkQuerySet None 0 1 2 3 None None 4 5 6 false) 5 None Fixtures.ready
    = (Raise (ValueError msg), Fixtures.ready).
Proof.
  destruct (unbound_descriptor_raises (Cl := Fixtures.flat_clauses) (Ut := Fixtures.flat_utils)
              (Pf := Fixtures.no_prefetch)
              (mkQuerySet None 0 1 2 3 None None 4 5 6 false) Fixtures.ready eq_refl)
    as (Hcall & _).
  destruct (Hcall (Limit 5 None)) as (msg & w' & Hrun & _).
  exists msg. cbn [call] in Hrun. rewrite Hrun. f_equal.
  revert Hrun. cbn. by intros [= _ <-].
Defined.

(** [fields] on an unbound descriptor: the helper has set the entry in the
    mask before the missing class is noticed. *)
Example unbound_fields_changes_mask :
  QuerySet.fields (Ut := Fixtures.flat_utils)
    (mkQuerySet None 0 1 2 3 None None 4 5 6 false) (ColDict [("title", Ellipsis)])
    Fixtures.ready
  = (Raise (ValueError "Model class of QuerySet is not initialized"),
     set_heap (<[4 := ODict [("title", Ellipsis)]]> (heap Fixtures.ready)) Fixtures.ready).
Proof. reflexivity. Qed.

(** ** Relation lists *)

Section relations.
Context {Cl : Clauses} {Ut : utils.Utils} {Pf : Prefetch}.

(** X3.  [select_related] and [prefetch_related] on a bound descriptor return a
    descriptor whose relation list holds, once each, the paths of the list
    of the parent and the paths given. *)
Theorem relation_lists_are_sets (self : QuerySet) (related : str_or_list)
    (w : world) (m : Model) :
  model_cls self = Some m -> allocated w self ->
  (exists qs w',
      QuerySet.select_related self related w = (Ok qs, w')
      /\ NoDup (strs_at (heap w') (_select_related qs))
      /\ forall x, x ∈ strs_at (heap w') (_select_related qs)
                   <-> x ∈ strs_at (heap w) (_select_related self) \/ x ∈ as_list related)
  /\ (exists qs w',
        QuerySet.prefetch_related self related w = (Ok qs, w')
        /\ NoDup (strs_at (heap w') (_prefetch_related qs))
        /\ forall x, x ∈ strs_at (heap w') (_prefetch_related qs)
                     <-> x ∈ strs_at (heap w) (_prefetch_related self)
                         \/ x ∈ as_list related).
Proof.
  intros Hm Hal. split.
  - destruct (call_spec self (Select_related related) w m eq_refl Hm Hal)
      as (qs & w' & Hrun & _ & _ & _ & _ & Hobs).
    exists qs, w'. split; [exact Hrun|].
    pose proof (f_equal obs_select_related Hobs) as Hsr. cbn in Hsr. rewrite Hsr.
    split; [apply NoDup_elements|].
    intros x. by rewrite elem_of_elements, elem_of_list_to_set, elem_of_app.
  - destruct (call_spec self (Prefetch_related related) w m eq_refl Hm Hal)
      as (qs & w' & Hrun & _ & _ & _ & _ & Hobs).
    exists qs, w'. split; [exact Hrun|].
    pose proof (f_equal obs_prefetch_related Hobs) as Hpr. cbn in Hpr. rewrite Hpr.
    split; [apply NoDup_elements|].
    intros x. by rewrite elem_of_elements, elem_of_list_to_set, elem_of_app.
Qed.

(** ** [exclude] after [exclude] *)

(** X4.  [exclude] builds the exclude clauses of its result from the filter
    clauses of the descriptor and its keyword arguments; the exclude clauses
    the descriptor already has are not carried over.  So
    [qs.exclude(kw1).exclude(kw2)] has the exclude clauses of
    [qs.exclude(kw2)], and the filter clauses of [qs]. *)
Theorem exclude_replaces_exclude (self : QuerySet) (kw1 kw2 : kwargs)
    (w : world) (m : Model) :
  model_cls self = Some m -> allocated w self ->
  exists q2 w2 q w',
    chain self [Exclude kw1; Exclude kw2] w = (Ok q2, w2)
    /\ QuerySet.exclude self kw2 w = (Ok q, w')
    /\ clauses_at (heap w2) (exclude_clauses q2) = clauses_at (heap w') (exclude_clauses q)
    /\ clauses_at (heap w2) (filter_clauses q2) = clauses_at (heap w) (filter_clauses self).
Proof.
  intros Hm Hal.
  destruct (chain_spec [Exclude kw1; Exclude kw2] self w m ltac:(by repeat constructor) Hm Hal)
    as (q2 & w2 & Hrun2 & _ & _ & _ & Hobs2).
  destruct (call_spec self (Exclude kw2) w m eq_refl Hm Hal)
    as (q & w' & Hrun & _ & _ & _ & _ & Hobs).
  exists q2, w2, q, w'. split; [exact Hrun2|]. split; [exact Hrun|].
  pose proof (f_equal obs_exclude_clauses Hobs2) as He2.
  pose proof (f_equal obs_filter_clauses Hobs2) as Hf2.
  pose proof (f_equal obs_exclude_clauses Hobs) as He.
  cbn in He2, Hf2, He. by rewrite He2, Hf2, He.
Qed.

End relations.

Lemma relation_lists_are_sets_witness :
  exists qs w',
    QuerySet.select_related Fixtures.Track_objects (Lst ["album"; "album"]) Fixtures.ready
    = (Ok qs, w')
    /\ NoDup (strs_at (heap w') (_select_related qs)).
Proof.
  destruct (relation_lists_are_sets (Ut := Fixtures.flat_utils) Fixtures.Track_objects
              (Lst ["album"; "album"]) Fixtures.ready Fixtures.Track eq_refl
              Track_objects_allocated) as [(qs & w' & Hrun & Hnodup & _) _].
  by exists qs, w'.
Defined.

Lemma exclude_replaces_exclude_witness :
  exists q2 w2 q w',
    chain (Ut := Fixtures.flat_utils) Fixtures.Track_objects
      [Exclude [("title", VStr "Test1")]; Exclude [("title", VStr "Test2")]]
      Fixtures.ready = (Ok q2, w2)
    /\ QuerySet.exclude Fixtures.Track_objects [("title", VStr "Test2")] Fixtures.ready
       = (Ok q, w')
    /\ clauses_at (heap w2) (exclude_clauses q2) = clauses_at (heap w') (exclude_clauses q)
    /\ clauses_at (heap w2) (filter_clauses q2)
       = clauses_at (heap Fixtures.ready) (filter_clauses Fixtures.Track_objects).
Proof.
  apply (exclude_replaces_exclude (Ut := Fixtures.flat_utils) _ _ _ _ Fixtures.Track).
  - reflexivity.
  - exact Track_objects_allocated.
Defined.

(** Track 1 is back once track 2 is excluded. *)
Example exclude_twice :
  ((qs <- chain (Ut := Fixtures.flat_utils) Fixtures.Track_objects
            [Exclude [("title", VStr "Test1")]; Exclude [("title", VStr "Test2")]] ;;
    QuerySet.all (Cl := Fixtures.flat_clauses) (Pf := Fixtures.no_prefetch) qs []) Fixtures.ready).1
  = Ok [Some (mkInstance (Fixtures.track 1 1 "Test1" 1) true);
        Some (mkInstance (Fixtures.track 3 1 "Test3" 3) true)].
Proof. vm_compute. reflexivity. Qed.

(** ** Reading *)

Lemma bind_assoc {A B C} (m : M A) (f : A -> M B) (g : B -> M C) w :
  (y <- (x <- m ;; f x) ;; g y) w = (x <- m ;; y <- f x ;; g y) w.
Proof. unfold bind. by destruct (m w) as [[a|e] w1]. Qed.

Section reading.
Context {Cl : Clauses} {Ut : utils.Utils} {Pf : Prefetch}.

(** X5.  When criteria are given, or the descriptor has filter clauses, [get] is
    [all] followed by the check that there is exactly one instance: it runs
    the same expression, without a limit of its own. *)
Theorem get_is_all_then_check (self : QuerySet) (kw : kwargs) (w : world) (m : Model) :
  model_cls self = Some m -> allocated w self ->
  kw <> [] \/ clauses_at (heap w) (filter_clauses self) <> [] ->
  QuerySet.get self kw w
  = (rows <- QuerySet.all self kw ;;
     _ <- QuerySet.check_single_result_rows_count rows ;;
     QuerySet.first_of rows) w.
Proof.
  intros Hm Hal Hsome.
  destruct (with_criteria_spec self kw w m Hm Hal)
    as (qs & w0 & Hrun & _ & Hmq & _ & Hfc & _).
  assert (Hne : clauses_at (heap w0) (filter_clauses qs) <> []).
  { rewrite Hfc. intros [Hf Hmap]%app_eq_nil.
    destruct Hsome as [Hkw|Hne]; [|done]. by destruct kw. }
  assert (Hall : QuerySet.all self kw
                 = (qs <- QuerySet.with_criteria self kw ;;
                    expr <- QuerySet.build_select_expression qs None None None ;;
                    QuerySet.fetch_and_process qs expr)) by (by destruct kw).
  assert (Hexpr : QuerySet.get_expression qs w0
                  = QuerySet.build_select_expression qs None None None w0).
  { unfold QuerySet.get_expression. unfold bind at 1, get_clauses.
    by destruct (clauses_at (heap w0) (filter_clauses qs)). }
  rewrite (build_select_expression_run _ _ _ _ _ m Hmq) in Hexpr.
  match type of Hexpr with _ = (Ok ?e, _) => set (e0 := e) in * end.
  assert (Hallw : QuerySet.all self kw w = QuerySet.fetch_and_process qs e0 w0).
  { rewrite Hall. unfold bind at 1. rewrite Hrun. unfold bind at 1.
    by rewrite (build_select_expression_run _ _ _ _ _ m Hmq). }
  unfold bind at 1. rewrite Hallw.
  rewrite get_with_criteria. unfold bind at 1. rewrite Hrun.
  unfold QuerySet.get_. unfold bind at 1. rewrite Hexpr.
  reflexivity.
Qed.




End reading.

(** ** Deleting *)

(** A row passes the condition [update] and [delete] compile when it
    satisfies every filter clause. *)
Lemma row_matches_filter_clauses {Cl : Clauses} t fcs r :
  row_matches t (FilterQuery_apply fcs false []) r = forallb (clause_holds t r) fcs.
Proof.
  unfold row_matches.
  change (FilterQuery_apply fcs false [])
    with (FilterQuery_apply [] true (FilterQuery_apply fcs false [])).
  rewrite where_holds. cbn. by rewrite andb_true_r.
Qed.

Lemma filter_ext_eq {A} (f g : A -> bool) (l : list A) :
  (forall x, f x = g x) -> List.filter f l = List.filter g l.
Proof. intros Hfg. induction l as [|x l IH]; [done|]. cbn. by rewrite Hfg, IH. Qed.

Lemma filter_disjoint {A} (f g : A -> bool) (l : list A) :
  (forall x, f x = true -> g x = true) ->
  List.filter f (List.filter (fun x => negb (g x)) l) = [].
Proof.
  intros Hfg. induction l as [|x l IH]; [done|].
  cbn. destruct (g x) eqn:Hg; cbn; [exact IH|].
  destruct (f x) eqn:Hf; [|exact IH]. apply Hfg in Hf. congruence.
Qed.

Section deleting.
Context {Cl : Clauses} {Ut : utils.Utils} {Pf : Prefetch}.

(** What [delete()] does when it does not stop on the missing filter. *)
Lemma delete_run self each w m :
  model_cls self = Some m ->
  each = true \/ clauses_at (heap w) (filter_clauses self) <> [] ->
  let cond := FilterQuery_apply (clauses_at (heap w) (filter_clauses self)) false [] in
  let rows := table_rows (database w) (tablename m) in
  QuerySet.delete self each [] w
  = (Ok (VInt (Z.of_nat (length (List.filter (row_matches (tablename m) cond) rows)))),
     add_event (Execute (Delete (tablename m) cond))
       (set_database
          (<[tablename m :=
               List.filter (fun r => negb (row_matches (tablename m) cond r)) rows]>
             (database w)) w)).
Proof.
  intros Hm Hgo cond rows.
  assert (Hcheck : negb each
                   && negb (bool_decide (clauses_at (heap w) (filter_clauses self) <> []))
                   = false).
  { destruct Hgo as [->|Hne]; [reflexivity|].
    rewrite (bool_decide_eq_true_2 _ Hne). apply andb_false_r. }
  cbn [QuerySet.delete].
  unfold QuerySet.delete_, QuerySet.model_meta. rewrite Hm.
  unfold bind, ret, get_clauses, execute. by rewrite Hcheck.
Qed.


(** X8.  Once [delete()] has returned, [all()] on the same descriptor finds
    nothing. *)
Theorem all_after_delete_is_empty (self : QuerySet) (each : bool) (w w1 : world)
    (m : Model) (n : value) :
  model_cls self = Some m ->
  QuerySet.delete self each [] w = (Ok n, w1) ->
  exists w2, QuerySet.all self [] w1 = (Ok [], w2).
Proof.
  intros Hm Hdel.
  assert (Hgo : each = true \/ clauses_at (heap w) (filter_clauses self) <> []).
  { revert Hdel. cbn [QuerySet.delete]. unfold QuerySet.delete_.
    unfold bind at 1, get_clauses.
    destruct each; [by left|].
    destruct (clauses_at (heap w) (filter_clauses self)); [discriminate|by right]. }
  rewrite (delete_run self each w m Hm Hgo) in Hdel. injection Hdel as _ <-.
  match goal with
  | |- context [QuerySet.all self [] ?w1] =>
      assert (Hrows : table_rows (database w1) (tablename m)
                      = List.filter
                          (fun r => negb (forallb (clause_holds (tablename m) r)
                                            (clauses_at (heap w) (filter_clauses self))))
                          (table_rows (database w) (tablename m)))
        by (cbn [database add_event set_database]; rewrite table_rows_insert;
            apply filter_ext_eq; intros r; by rewrite row_matches_filter_clauses);
      set (w' := w1) in *
  end.
  eexists. cbn [QuerySet.all]. unfold bind at 1.
  rewrite (build_select_expression_run _ _ _ _ _ m Hm).
  unfold QuerySet.fetch_and_process, QuerySet.model_meta. rewrite Hm.
  unfold bind at 1, ret at 1. unfold bind at 1, fetch_all.
  assert (Hnone : forall e, sel_table e = tablename m ->
            sel_where e
            = FilterQuery_apply (clauses_at (heap w) (exclude_clauses self)) true
                (FilterQuery_apply (clauses_at (heap w) (filter_clauses self)) false []) ->
            run_select (database w') e = []).
  { intros e Ht Hw. unfold run_select. rewrite Ht, Hrows, Hw.
    rewrite filter_disjoint.
    { unfold paginate. cbn [sort_rows].
      destruct (sel_limit e), (sel_offset e); by rewrite ?drop_nil, ?take_nil. }
    intros r. unfold row_matches at 1. rewrite where_holds.
    intros [Hf _]%andb_true_iff. exact Hf. }
  rewrite Hnone; reflexivity.
Qed.

End deleting.

Lemma get_is_all_then_check_witness :
  QuerySet.get (Cl := Fixtures.flat_clauses) (Pf := Fixtures.no_prefetch) Fixtures.Track_objects
    [("title", VStr "Test2")] Fixtures.ready
  = (rows <- QuerySet.all (Cl := Fixtures.flat_clauses) (Pf := Fixtures.no_prefetch) Fixtures.Track_objects
               [("title", VStr "Test2")] ;;
     _ <- QuerySet.check_single_result_rows_count rows ;;
     QuerySet.first_of rows) Fixtures.ready.
Proof.
  apply (get_is_all_then_check (Ut := Fixtures.flat_utils) _ _ _ Fixtures.Track).
  - reflexivity.
  - exact Track_objects_allocated.
  - left. discriminate.
Defined.



Lemma all_after_delete_is_empty_witness :
  exists w2,
    QuerySet.all (Cl := Fixtures.flat_clauses) (Pf := Fixtures.no_prefetch) Fixtures.Track_objects []
      (QuerySet.delete (Cl := Fixtures.flat_clauses) Fixtures.Track_objects true [] Fixtures.ready).2
    = (Ok [], w2).
Proof.
  apply (all_after_delete_is_empty (Cl := Fixtures.flat_clauses) (Pf := Fixtures.no_prefetch) Fixtures.Track_objects
           true Fixtures.ready _ Fixtures.Track (VInt 3)); reflexivity.
Defined.

(** A descriptor that excludes track 1 and is told to delete each row
    deletes track 1 too. *)
Example delete_ignores_exclude :
  table_rows
    (database
       ((qs <- QuerySet.exclude Fixtures.Track_objects [("title", VStr "Test1")] ;;
         QuerySet.delete (Cl := Fixtures.flat_clauses) qs true []) Fixtures.ready).2) "track"
  = [].
Proof. vm_compute. reflexivity. Qed.

(** ** Creating *)

Section creating.
Context {Cl : Clauses} {Ut : utils.Utils} {Pf : Prefetch}.

(** X9.  [create] on a bound descriptor, for a model whose primary key has no
    column alias and that has no server-side default to load.  When the
    model refuses the keyword arguments, the exception comes back and
    nothing was sent or written.  Otherwise the [pre_save] signal is sent
    with the new instance, and then the one insert.  When the database
    takes the insert, [create] returns an instance flagged as saved, after
    the [post_save] signal with that instance.  When the database refuses
    it, its error is what [create] raises: the database is as it was and no
    [post_save] signal is sent. *)
Theorem create_signals_around_insert (self : QuerySet) (kw : kwargs) (w : world)
    (m : Model) :
  model_cls self = Some m ->
  get_column_alias m (pkname m) = pkname m ->
  existsb (fun f => bool_decide (is_Some f.2) && negb (dict_has f.1 kw)) (model_fields m)
  = false ->
  let expr := Insert (tablename m) (pkname m) (prepare_model_to_save m kw) in
  match new_instance m kw with
  | Raise e => QuerySet.create self kw w = (Raise e, w)
  | Ok instance =>
      match run_statement expr [] (database w) with
      | Ok (db, pk) =>
          exists r w',
            QuerySet.create self kw w = (Ok r, w')
            /\ inst_saved r = true
            /\ heap w' = heap w
            /\ database w' = db
            /\ log w' = log w ++ [Send "pre_save" (model_name m) instance;
                                  Execute expr;
                                  Send "post_save" (model_name m) r]
      | Raise e =>
          exists w',
            QuerySet.create self kw w = (Raise e, w')
            /\ heap w' = heap w
            /\ database w' = database w
            /\ log w' = log w ++ [Send "pre_save" (model_name m) instance;
                                  Execute expr]
      end
  end.
Proof.
  intros Hm Halias Hdefaults expr.
  unfold QuerySet.create, QuerySet.model, QuerySet.model_meta. rewrite Hm.
  unfold bind, ret, lift, emit, execute, raise.
  cbn -[run_statement existsb dict_has dict_get]. rewrite Halias. fold expr.
  destruct (new_instance m kw) as [instance|e]; [|reflexivity].
  cbn -[run_statement existsb dict_has dict_get].
  destruct (run_statement expr [] (database w)) as [[db pk]|e] eqn:Hstmt.
  - rewrite Hdefaults.
    assert (Hsome : forall v : value, is_Some (Some v)) by (by eexists).
    assert (Hnone : ~ is_Some (@None value)) by (by intros [? ?]).
    destruct (negb (dict_has (pkname m) kw)); cbn [andb];
      [unfold dict_has;
       destruct (dict_get (pkname m) (prepare_model_to_save m kw)) as [v|];
       [rewrite (bool_decide_eq_true_2 _ (Hsome v))
       |rewrite (bool_decide_eq_false_2 _ Hnone)]|];
      (eexists _, _; split; [reflexivity|];
       split_and!; cbn; try reflexivity; by rewrite <- !app_assoc).
  - eexists. split; [reflexivity|]. split_and!; cbn; try reflexivity.
    by rewrite <- !app_assoc.
Qed.

End creating.

(** ** [bulk_update] of saved objects *)

Section bulk_saved.
Context {Cl : Clauses} {Ut : utils.Utils} {Pf : Prefetch}.

(** The loop over objects that all have a primary key prepares one parameter
    set for each and changes nothing. *)
Lemma for_each_ready_object_saved m pk_name columns objects w :
  Forall (fun objt => exists v, dict_get pk_name (inst_dict objt) = Some v /\ v <> VNone)
    objects ->
  exists params,
    for_each (QuerySet.ready_object m pk_name columns) objects w = (Ok params, w)
    /\ length params = length objects.
Proof.
  induction 1 as [|objt objects (v & Hv & Hnone) _ (params & IH & Hlen)].
  - by exists [].
  - eexists. cbn [for_each]. unfold bind at 1.
    unfold QuerySet.ready_object at 1, dict_has. rewrite Hv.
    rewrite bool_decide_eq_true_2 by (by eexists). cbn [negb orb default].
    rewrite bool_decide_eq_false_2 by done.
    unfold ret at 1. unfold bind at 1. rewrite IH. unfold ret.
    split; [reflexivity|]. cbn. by rewrite Hlen.
Qed.

(** X10.  When every object has its primary key, [bulk_update] makes one round
    trip, whatever the number of objects: one batched update with one
    parameter set for each object.  The columns it sets are columns of the
    table, and the primary key is never one of them.  When a column is left
    to set, or there is no object, every object comes back flagged as
    saved.  When none is left, as with [columns] naming the primary key
    alone, the statement has nothing to set: the database refuses it and
    nothing is changed. *)
Theorem bulk_update_is_one_batch (self : QuerySet) (objects : list Instance)
    (columns : option (list string)) (w : world) (m : Model) :
  model_cls self = Some m ->
  Forall (fun objt => exists v, dict_get (pkname m) (inst_dict objt) = Some v
                                /\ v <> VNone) objects ->
  let pk_column := get_column_alias m (pkname m) in
  exists cols params r w',
    QuerySet.bulk_update self objects columns w = (r, w')
    /\ heap w' = heap w
    /\ log w' = log w ++ [Execute_many (UpdateMany (tablename m) pk_column cols) params]
    /\ length params = length objects
    /\ (pk_column ∉ cols)
    /\ (forall c, c ∈ cols -> c ∈ table_columns m)
    /\ (cols <> [] \/ objects = [] -> r = Ok (map (set_save_status true) objects))
    /\ (cols = [] -> objects <> [] ->
        r = Raise (OtherError "OperationalError") /\ database w' = database w).
Proof.
  intros Hm Hsaved pk_column.
  unfold QuerySet.bulk_update, QuerySet.model_meta, QuerySet.model. rewrite Hm.
  unfold bind at 1. unfold ret at 1.
  unfold bind at 1.
  set (given := match columns with Some (c :: cs) => ret (c :: cs) | _ => _ end).
  assert (Hgiven : exists l, given w = (Ok l, w)).
  { subst given. destruct columns as [[|c cs]|]; eexists; reflexivity. }
  destruct Hgiven as [l ->].
  unfold bind at 1. unfold ret at 1. unfold bind at 1.
  match goal with
  | |- context [for_each (QuerySet.ready_object m (pkname m) ?c) objects w] =>
      destruct (for_each_ready_object_saved m (pkname m) c objects w Hsaved)
        as (params & -> & Hlen)
  end.
  unfold bind, execute_many, ret. cbn [run_statement].
  match goal with
  | |- context [UpdateMany _ _ ?c] => set (cols := c) in *
  end.
  assert (Hpk : pk_column ∉ cols).
  { subst cols. rewrite list_elem_of_In, filter_In. intros [_ Hc].
    apply andb_true_iff in Hc as [Hc _].
    apply negb_true_iff, bool_decide_eq_false in Hc. by apply Hc. }
  assert (Htable : forall c, c ∈ cols -> c ∈ table_columns m).
  { intros c. subst cols. rewrite list_elem_of_In, filter_In. intros [_ Hc].
    apply andb_true_iff in Hc as [_ Hc]. by apply bool_decide_eq_true in Hc. }
  exists cols, params.
  destruct cols as [|c cols'] eqn:Hcols.
  - destruct params as [|p params'].
    + eexists _, _. split; [reflexivity|]. split_and!; try done.
      intros _ Hne. by destruct objects.
    + eexists _, _. split; [reflexivity|]. split_and!; try done.
      intros [?| ->]; [done | discriminate].
  - eexists _, _. split; [reflexivity|]. split_and!; try done.
Qed.

End bulk_saved.

Lemma bulk_update_is_one_batch_witness :
  exists cols params w',
    QuerySet.bulk_update (Cl := Fixtures.flat_clauses) Fixtures.Track_objects
      [mkInstance (Fixtures.track 1 1 "One" 1) true;
       mkInstance (Fixtures.track 2 1 "Two" 2) true] (Some ["title"]) Fixtures.ready
    = (Ok (map (set_save_status true)
             [mkInstance (Fixtures.track 1 1 "One" 1) true;
              mkInstance (Fixtures.track 2 1 "Two" 2) true]), w')
    /\ heap w' = heap Fixtures.ready
    /\ log w' = log Fixtures.ready
                ++ [Execute_many (UpdateMany "track" "id" cols) params]
    /\ length params = 2
    /\ ("id" ∉ cols)
    /\ (forall c, c ∈ cols -> c ∈ table_columns Fixtures.Track).
Proof.
  destruct (bulk_update_is_one_batch (Cl := Fixtures.flat_clauses)
              Fixtures.Track_objects
              [mkInstance (Fixtures.track 1 1 "One" 1) true;
               mkInstance (Fixtures.track 2 1 "Two" 2) true]
              (Some ["title"]) Fixtures.ready Fixtures.Track eq_refl
              ltac:(repeat constructor; eexists; (split; [reflexivity | discriminate])))
    as (cols & params & r & w' & Hrun & Hheap & Hlog & Hlen & Hpk & Htable & Hok & _).
  exists cols, params, w'.
  assert (Hw : w' = (QuerySet.bulk_update (Cl := Fixtures.flat_clauses)
                       Fixtures.Track_objects
                       [mkInstance (Fixtures.track 1 1 "One" 1) true;
                        mkInstance (Fixtures.track 2 1 "Two" 2) true]
                       (Some ["title"]) Fixtures.ready).2) by (by rewrite Hrun).
  assert (Hcols : cols <> []).
  { intros ->. rewrite Hw in Hlog. vm_compute in Hlog. congruence. }
  rewrite Hrun, (Hok (or_introl Hcols)). by split_and!.
Defined.

(** With [columns] naming the primary key alone nothing is left to set, and
    the batch is refused. *)
Example bulk_update_only_key_fails :
  QuerySet.bulk_update (Cl := Fixtures.flat_clauses) Fixtures.Track_objects
    [mkInstance (Fixtures.track 1 1 "One" 1) true] (Some ["id"]) Fixtures.ready
  = (Raise (OtherError "OperationalError"),
     add_event (Execute_many (UpdateMany "track" "id" []) [[("new_id", VInt 1)]])
       Fixtures.ready).
Proof. vm_compute. reflexivity. Qed.

(** The scenario of [test_model_crud]: a fourth track. *)
Lemma create_signals_around_insert_witness :
  exists r w',
    QuerySet.create (Cl := Fixtures.flat_clauses) Fixtures.Track_objects
      [("album", VInt 1); ("title", VStr "The Bird"); ("position", VInt 1)]
      Fixtures.ready = (Ok r, w')
    /\ inst_saved r = true
    /\ log w' = [Send "pre_save" "Track"
                   (mkInstance [("album", VInt 1); ("title", VStr "The Bird");
                                ("position", VInt 1)] false);
                 Execute (Insert "track" "id"
                            [("album", VInt 1); ("title", VStr "The Bird");
                             ("position", VInt 1)]);
                 Send "post_save" "Track" r].
Proof.
  destruct (create_signals_around_insert (Cl := Fixtures.flat_clauses)
              Fixtures.Track_objects
              [("album", VInt 1); ("title", VStr "The Bird"); ("position", VInt 1)]
              Fixtures.ready Fixtures.Track eq_refl eq_refl eq_refl)
    as (r & w' & Hrun & Hsaved & _ & _ & Hlog).
  exists r, w'. split; [exact Hrun|]. split; [exact Hsaved | exact Hlog].
Defined.

(** A track with the key of track 1: the insert is refused after the
    [pre_save] signal, and no [post_save] signal follows. *)
Example create_existing_key_fails :
  QuerySet.create (Cl := Fixtures.flat_clauses) Fixtures.Track_objects
    [("id", VInt 1); ("title", VStr "Again")] Fixtures.ready
  = (Raise (OtherError "IntegrityError"),
     add_event (Execute (Insert "track" "id" [("id", VInt 1); ("title", VStr "Again")]))
       (add_event (Send "pre_save" "Track"
                     (mkInstance [("id", VInt 1); ("title", VStr "Again")] false))
          Fixtures.ready)).
Proof. vm_compute. reflexivity. Qed.

(** ** [update_or_create] *)


Section upserting.
Context {Cl : Clauses} {Ut : utils.Utils} {Pf : Prefetch} {Iu : InstanceUpdate}.


End upserting.

(** ** Nothing found *)

Section nothing_found.
Context {Cl : Clauses} {Ut : utils.Utils} {Pf : Prefetch}.

(** X12.  When the expression selects no row, no prefetch query is made, whatever
    prefetch paths the descriptor has: the fetch is the only round trip,
    [all()] is the empty list, and [get()] and [first()] raise [NoMatch]. *)
Theorem no_rows_no_prefetch (self : QuerySet) (w : world) (m : Model) :
  model_cls self = Some m ->
  (forall e,
      QuerySet.build_select_expression self None None None w = (Ok e, w) ->
      run_select (database w) e = [] ->
      QuerySet.all self [] w = (Ok [], add_event (Fetch_all e) w))
  /\ (forall op e,
        expression_of op self w = (Ok e, w) ->
        run_select (database w) e = [] ->
        run_single op self [] w = (Raise NoMatch, add_event (Fetch_all e) w)).
Proof.
  intros Hm.
  assert (Hfetch : forall e, run_select (database w) e = [] ->
            QuerySet.fetch_and_process self e w = (Ok [], add_event (Fetch_all e) w)).
  { intros e Hnone. unfold QuerySet.fetch_and_process, QuerySet.model_meta.
    rewrite Hm. unfold bind, ret, fetch_all, truthy. by rewrite Hnone. }
  split.
  - intros e He Hnone. cbn [QuerySet.all]. unfold bind at 1. rewrite He.
    by apply Hfetch.
  - intros op e He Hnone. rewrite run_single_unfold. cbn [QuerySet.with_criteria].
    unfold bind at 1, ret at 1. unfold bind at 1. rewrite He.
    unfold bind at 1. by rewrite (Hfetch e Hnone).
Qed.

End nothing_found.

Lemma no_rows_no_prefetch_witness :
  exists e,
    QuerySet.all (Cl := Fixtures.flat_clauses) (Pf := Fixtures.no_prefetch)
      (mkQuerySet (Some Fixtures.Album) 0 1 2 3 None (Some 1%Z) 4 5 6 false) []
      Fixtures.ready
    = (Ok [], add_event (Fetch_all e) Fixtures.ready).
Proof.
  destruct (no_rows_no_prefetch (Cl := Fixtures.flat_clauses) (Pf := Fixtures.no_prefetch)
              (mkQuerySet (Some Fixtures.Album) 0 1 2 3 None (Some 1%Z) 4 5 6 false)
              Fixtures.ready Fixtures.Album eq_refl) as [Hall _].
  eexists. apply Hall; [reflexivity | vm_compute; reflexivity].
Defined.


(** [update_or_create(pk=2, title="New")] finds track 2 and hands it to the
    instance's [update]. *)
Example update_or_create_existing :
  (QuerySet.update_or_create (Cl := Fixtures.flat_clauses) (Pf := Fixtures.no_prefetch)
     (Iu := Fixtures.set_fields)
     Fixtures.Track_objects [("pk", VInt 2); ("title", VStr "New")] Fixtures.ready).1
  = Ok (mkInstance (Fixtures.track 2 1 "New" 2) true).
Proof. vm_compute. reflexivity. Qed.

(** ** Limit and offset *)

Section bounds.
Context {Cl : Clauses} {Ut : utils.Utils} {Pf : Prefetch}.

(** X13.  [limit] and [offset] called without the raw flag commute: the two
    orders give descriptors that read the same, and so compile to the same
    expression.  Of two limits the later one stands. *)
Theorem limit_and_offset_commute (self : QuerySet) (n k n' : Z) (w : world) (m : Model) :
  model_cls self = Some m -> allocated w self ->
  exists q1 w1 q2 w2 q3 w3,
    chain self [Limit n None; Offset k None] w = (Ok q1, w1)
    /\ chain self [Offset k None; Limit n None] w = (Ok q2, w2)
    /\ observe w1 q1 = observe w2 q2
    /\ QuerySet.build_select_expression q1 None None None w1
       = (Ok (Query_build_select_expression
                {| q_model_cls := m;
                   q_select_related := strs_at (heap w) (_select_related self);
                   q_filter_clauses := clauses_at (heap w) (filter_clauses self);
                   q_exclude_clauses := clauses_at (heap w) (exclude_clauses self);
                   q_offset := Some k;
                   q_limit_count := Some n;
                   q_fields := dict_at (heap w) (_columns self);
                   q_exclude_fields := dict_at (heap w) (_exclude_columns self);
                   q_order_bys := strs_at (heap w) (order_bys self);
                   q_limit_raw_sql := limit_sql_raw self |}), w1)
    /\ chain self [Limit n None; Limit n' None] w = (Ok q3, w3)
    /\ limit_count q3 = Some n'.
Proof.
  intros Hm Hal.
  destruct (chain_spec [Limit n None; Offset k None] self w m ltac:(by repeat constructor) Hm Hal)
    as (q1 & w1 & Hrun1 & _ & _ & Hm1 & Hobs1).
  destruct (chain_spec [Offset k None; Limit n None] self w m ltac:(by repeat constructor) Hm Hal)
    as (q2 & w2 & Hrun2 & _ & _ & _ & Hobs2).
  destruct (chain_spec [Limit n None; Limit n' None] self w m ltac:(by repeat constructor) Hm Hal)
    as (q3 & w3 & Hrun3 & _ & _ & _ & Hobs3).
  exists q1, w1, q2, w2, q3, w3.
  split; [exact Hrun1|]. split; [exact Hrun2|].
  split; [by rewrite Hobs1, Hobs2|].
  split.
  - rewrite (build_select_expression_run _ _ _ _ _ m Hm1).
    pose proof (f_equal obs_select_related Hobs1) as E1.
    pose proof (f_equal obs_filter_clauses Hobs1) as E2.
    pose proof (f_equal obs_exclude_clauses Hobs1) as E3.
    pose proof (f_equal obs_query_offset Hobs1) as E4.
    pose proof (f_equal obs_limit_count Hobs1) as E5.
    pose proof (f_equal obs_columns Hobs1) as E6.
    pose proof (f_equal obs_exclude_columns Hobs1) as E7.
    pose proof (f_equal obs_order_bys Hobs1) as E8.
    pose proof (f_equal obs_limit_sql_raw Hobs1) as E9.
    cbn in E1, E2, E3, E4, E5, E6, E7, E8, E9.
    rewrite E1, E2, E3, E4, E5, E6, E7, E8, E9. reflexivity.
  - split; [exact Hrun3|]. exact (f_equal obs_limit_count Hobs3).
Qed.

End bounds.

Lemma limit_and_offset_commute_witness :
  exists q1 w1 q2 w2,
    chain (Ut := Fixtures.flat_utils) Fixtures.Track_objects
      [Limit 1 None; Offset 1 None] Fixtures.ready = (Ok q1, w1)
    /\ chain (Ut := Fixtures.flat_utils) Fixtures.Track_objects
         [Offset 1 None; Limit 1 None] Fixtures.ready = (Ok q2, w2)
    /\ observe w1 q1 = observe w2 q2.
Proof.
  destruct (limit_and_offset_commute (Ut := Fixtures.flat_utils) Fixtures.Track_objects
              1 1 2 Fixtures.ready Fixtures.Track eq_refl Track_objects_allocated)
    as (q1 & w1 & q2 & w2 & _ & _ & Hrun1 & Hrun2 & Hobs & _).
  by exists q1, w1, q2, w2.
Defined.

(** [test_limit_and_offset]: the second of three tracks. *)
Example limit_offset_second_track :
  ((qs <- chain (Ut := Fixtures.flat_utils) Fixtures.Track_objects
            [Limit 1 None; Offset 1 None] ;;
    QuerySet.all (Cl := Fixtures.flat_clauses) (Pf := Fixtures.no_prefetch) qs []) Fixtures.ready).1
  = Ok [Some (mkInstance (Fixtures.track 2 1 "Test2" 2) true)].
Proof. vm_compute. reflexivity. Qed.

(** ** Updating *)

Section updating.
Context {Cl : Clauses} {Ut : utils.Utils} {Pf : Prefetch}.


End updating.


(** An update narrowed by an operator: the tracks after the first. *)
Example update_position_gt :
  table_rows
    (database
       ((qs <- QuerySet.filter Fixtures.Track_objects false [("position__gt", VInt 1)] ;;
         QuerySet.update (Cl := Fixtures.flat_clauses) qs false [("title", VStr "x")])
          Fixtures.ready).2) "track"
  = [Fixtures.track 1 1 "Test1" 1; Fixtures.track 2 1 "x" 2; Fixtures.track 3 1 "x" 3].
Proof. vm_compute. reflexivity. Qed.
